(** * ObjectUploader (minio-js, dist/esm/object-uploader.mjs)

    A shallow embedding of the upload orchestrator: the [Transform] stream
    that receives the chunks of an object one at a time and either PUTs the
    object in one request or drives a multipart upload, resuming a previous
    one where the MD5 of a chunk matches an already uploaded part.

    The object's mutable fields are a record, every call into a collaborator
    (the client, node:crypto, the caller's callback) is recorded in a trace,
    and the client is a strategy: its answer to a call may depend on all that
    happened before. *)

From Stdlib Require Import Strings.Ascii Strings.String Strings.Byte Lia.
From stdpp Require Import base option list gmap strings fin_maps.
From stdpp Require Import pretty.

(** ** Data *)

(** A node Buffer: the chunks and the digests. *)
Abbreviation Buffer := (list Byte.byte).

(** A JavaScript error value (always truthy). *)
Inductive Error := MkError (message : string).

(** The value of a request header: ['Content-Length'] is a number, the
    others are strings. *)
Inductive HeaderValue :=
| HNum (n : nat)
| HStr (s : string).

Abbreviation Headers := (gmap string HeaderValue).

(** [Object.assign({}, a, b)]: the keys of [b] override those of [a]. *)
Definition Object_assign (a b : Headers) : Headers := b ∪ a.

(** The query of a request: [''] or
    [querystring.stringify({partNumber, uploadId})], kept structured. *)
Inductive Query :=
| QueryEmpty
| QueryPart (partNumber : nat) (uploadId : string).

Record Options := {
  method : string;
  headers : Headers;
  query : Query;
  opt_bucketName : string;
  opt_objectName : string
}.

(** [response.headers] of a successful request. *)
Record Response := { response_headers : gmap string string }.

(** An entry of [etags] and of the listing of [listParts]:
    [{part, etag}]; [etag] may be [undefined]. *)
Record Part := { part : nat; etag : option string }.

(** [{etag, versionId}], the result of a PUT of the whole object. *)
Record UploadResult := { result_etag : string; versionId : option string }.

(** What the caller's callback is called with. *)
Inductive CallbackArgs :=
| CbError (err : Error)             (* callback(err) *)
| CbResult (result : UploadResult)  (* this.callback(null, {etag, versionId}) *)
| CbEtag (etag : string).           (* this.callback(null, etag) *)

(** The calls the uploader makes, in the order it makes them, each client
    call with the answer it got: an error or a value. *)
Inductive Event :=
| EvHash (chunk : Buffer)
    (* Crypto.createHash('md5').update(chunk).digest() *)
| EvMakeRequest (options : Options) (payload : Buffer)
    (answer : Error + Response)
| EvFindUploadId (bucket object : string)
    (answer : Error + option string)
| EvInitiateNewMultipartUpload (bucket object : string) (meta : Headers)
    (answer : Error + string)
| EvListParts (bucket object uploadId : string)
    (answer : Error + option (list Part))
| EvCompleteMultipartUpload (bucket object uploadId : string)
    (parts : list Part) (answer : Error + string)
| EvCallback (args : CallbackArgs).

(** The client is a strategy: the first argument of each operation is the
    trace up to the call, so that two equal requests may be answered
    differently. *)
Record Client := {
  enableSHA256 : bool;
  makeRequest : list Event → Options → Buffer → Error + Response;
  findUploadId : list Event → string → string → Error + option string;
  initiateNewMultipartUpload :
    list Event → string → string → Headers → Error + string;
  listParts :
    list Event → string → string → string → Error + option (list Part);
  completeMultipartUpload :
    list Event → string → string → string → list Part → Error + string
}.

(** The fields of the object that change ([this.emptyStream], ...). *)
Record ObjectUploader := {
  emptyStream : bool;
  partNumber : nat;
  oldParts : option (gmap nat Part);
  etags : list Part;
  id : option string
}.

Record World := { this : ObjectUploader; trace : list Event }.

(** What a call of [_transform] or [_flush] did with the [callback] of the
    stream. *)
Inductive Signal :=
| Done                  (* callback() *)
| Failed (err : Error)  (* callback(err) *)
| Pending               (* callback was not called *)
| OutOfFuel.            (* the model stopped: see the fuel of [_transform] *)

(** ** JavaScript values *)

(** [if (s)] on a string that may be undefined or null. *)
Definition truthy (s : option string) : bool :=
  match s with
  | Some (String _ _) => true
  | _ => false
  end.

Definition dquote : ascii := "034"%char.

(** [s.replace(/^Q/, '')], where Q is the double quote. *)
Definition replace_leading_quote (s : string) : string :=
  match s with
  | String c s' => if Ascii.eqb c dquote then s' else s
  | EmptyString => s
  end.

(** [s.replace(/Q$/, '')], where Q is the double quote. *)
Fixpoint replace_trailing_quote (s : string) : string :=
  match s with
  | EmptyString => EmptyString
  | String c EmptyString => if Ascii.eqb c dquote then EmptyString else s
  | String c s' => String c (replace_trailing_quote s')
  end.

(** The reducer of [etags.reduce(..., {})] in [_transform]. *)
Definition reducer (prev : gmap nat Part) (item : Part) : gmap nat Part :=
  match prev !! part item with
  | None => <[part item := item]> prev
  | Some _ => prev
  end.

(** [if (!etags) etags = []; etags.reduce(reducer, {})] *)
Definition build_oldParts (etags : option (list Part)) : gmap nat Part :=
  foldl reducer ∅ (default [] etags).

(** ** The state monad of the object and the trace *)

Definition M (A : Type) : Type := World → A * World.

Definition ret {A} (a : A) : M A := λ w, (a, w).

Definition bind {A B} (m : M A) (k : A → M B) : M B :=
  λ w, let (a, w') := m w in k a w'.

Notation "x <- m ;; k" := (bind m (λ x, k))
  (at level 100, m at next level, right associativity).
Notation "m ;;; k" := (bind m (λ _, k))
  (at level 100, right associativity).

Definition get : M ObjectUploader := λ w, (this w, w).

Definition put (u : ObjectUploader) : M unit :=
  λ w, (tt, {| this := u; trace := trace w |}).

Definition record (e : Event) : M unit :=
  λ w, (tt, {| this := this w; trace := trace w ++ [e] |}).

(** A call of the client: the answer is the one the client gives after the
    trace so far, and the call is recorded with it. *)
Definition call {A} (e : A → Event) (answer : list Event → A) : M A :=
  λ w, let a := answer (trace w) in
       (a, {| this := this w; trace := trace w ++ [e a] |}).

Definition set_emptyStream (b : bool) : M unit :=
  u <- get ;;
  put {| emptyStream := b; partNumber := partNumber u;
         oldParts := oldParts u; etags := etags u; id := id u |}.

Definition set_partNumber (n : nat) : M unit :=
  u <- get ;;
  put {| emptyStream := emptyStream u; partNumber := n;
         oldParts := oldParts u; etags := etags u; id := id u |}.

Definition set_oldParts (o : option (gmap nat Part)) : M unit :=
  u <- get ;;
  put {| emptyStream := emptyStream u; partNumber := partNumber u;
         oldParts := o; etags := etags u; id := id u |}.

Definition set_id (i : option string) : M unit :=
  u <- get ;;
  put {| emptyStream := emptyStream u; partNumber := partNumber u;
         oldParts := oldParts u; etags := etags u; id := i |}.

(** [this.etags.push(p)] *)
Definition push_etag (p : Part) : M unit :=
  u <- get ;;
  put {| emptyStream := emptyStream u; partNumber := partNumber u;
         oldParts := oldParts u; etags := etags u ++ [p]; id := id u |}.

(** ** The uploader *)

Section Uploader.

(** node:crypto and Buffer.toString. *)
Context (md5 : Buffer → Buffer) (hex base64 : Buffer → string).

(** [sanitizeETag] and [getVersionId] of ./internal/helper.mjs. *)
Context (sanitizeETag : option string → string).
Context (getVersionId : gmap string string → option string).

(** The arguments of the constructor. The caller's [callback] is not one
    of them here: what it is called with is recorded in the trace. *)
Context (client : Client) (bucketName objectName : string).
Context (partSize : nat) (metaData : Headers).

(** The state the constructor leaves. *)
Definition constructor : World :=
  {| this := {| emptyStream := true; partNumber := 1; oldParts := None;
                etags := []; id := None |};
     trace := [] |}.

(** The caller's callback: [this.callback(null, result)] on the next tick
    and the listener of ['error'], [callback(err)]. The client answers on a
    later turn of the event loop, so what [process.nextTick] defers runs
    before anything that follows in the trace. *)
Definition callback (args : CallbackArgs) : M unit := record (EvCallback args).

(** [this.emit('error', err)]: the listener the constructor installed. *)
Definition emit_error (err : Error) : M unit := callback (CbError err).

Definition hash (chunk : Buffer) : M Buffer :=
  record (EvHash chunk) ;;; ret (md5 chunk).

Definition result_of (response : Response) : UploadResult :=
  {| result_etag := sanitizeETag (response_headers response !! "etag");
     versionId := getVersionId (response_headers response) |}.

(** The etag of an uploaded part, as [_transform] normalizes it. *)
Definition part_etag (response : Response) : option string :=
  let etag := response_headers response !! "etag" in
  if truthy etag
  then (λ s, replace_trailing_quote (replace_leading_quote s)) <$> etag
  else etag.

(** [_transform(chunk, encoding, callback)]. A chunk that finds no session
    waits for ['ready'], whose listener calls [_transform] on it again: the
    fuel bounds these calls, and two are all there can be (lemmas
    [transform_total] and [transform_fuel] below). *)
Fixpoint _transform (fuel : nat) (chunk : Buffer) : M Signal :=
  match fuel with
  | 0 => ret OutOfFuel
  | S fuel =>
    set_emptyStream false ;;;
    let method := "PUT" in
    let headers : Headers := {[ "Content-Length" := HNum (length chunk) ]} in
    hashed <-
      (if negb (enableSHA256 client)
       then md5digest <- hash chunk ;;
            ret (Some md5digest,
                 <["Content-MD5" := HStr (base64 md5digest)]> headers)
       else ret (None, headers)) ;;
    let '(md5digest, headers) := hashed in
    u <- get ;;
    if (partNumber u =? 1)%nat && (length chunk <? partSize)%nat then
      let options :=
        {| method := method; headers := Object_assign metaData headers;
           query := QueryEmpty;
           opt_bucketName := bucketName; opt_objectName := objectName |} in
      r <- call (EvMakeRequest options chunk)
                (λ t, makeRequest client t options chunk) ;;
      match r with
      | inl err => ret (Failed err)
      | inr response =>
        callback (CbResult (result_of response)) ;;;
        ret Done
      end
    else
    match id u with
    | None =>
      (* this.once('ready', () => this._transform(chunk, encoding, callback)) *)
      r <- call (EvFindUploadId bucketName objectName)
                (λ t, findUploadId client t bucketName objectName) ;;
      match r with
      | inl err => emit_error err ;;; ret Pending
      | inr found =>
        if negb (truthy found) then
          r <- call (EvInitiateNewMultipartUpload bucketName objectName metaData)
                    (λ t, initiateNewMultipartUpload client t
                            bucketName objectName metaData) ;;
          match r with
          | inl err => ret (Failed err)
          | inr new_id =>
            set_id (Some new_id) ;;;
            (* this.emit('ready') *)
            _transform fuel chunk
          end
        else
          let found_id := default EmptyString found in
          set_id (Some found_id) ;;;
          r <- call (EvListParts bucketName objectName found_id)
                    (λ t, listParts client t bucketName objectName found_id) ;;
          match r with
          | inl err => emit_error err ;;; ret Pending
          | inr listed =>
            set_oldParts (Some (build_oldParts listed)) ;;;
            (* this.emit('ready') *)
            _transform fuel chunk
          end
      end
    | Some upload_id =>
      let partNumber := partNumber u in
      set_partNumber (S partNumber) ;;;
      skipped <-
        match oldParts u with
        | Some old =>
          let oldPart := old !! partNumber in
          md5digest <-
            match md5digest with
            | None => hash chunk
            | Some d => ret d
            end ;;
          match oldPart with
          | Some oldPart =>
            if decide (Some (hex md5digest) = etag oldPart) then
              push_etag {| part := partNumber; etag := etag oldPart |} ;;;
              ret true
            else ret false
          | None => ret false
          end
        | None => ret false
        end ;;
      if (skipped : bool) then ret Done else
      let query := QueryPart partNumber upload_id in
      let options :=
        {| method := method; headers := headers; query := query;
           opt_bucketName := bucketName; opt_objectName := objectName |} in
      r <- call (EvMakeRequest options chunk)
                (λ t, makeRequest client t options chunk) ;;
      match r with
      | inl err => ret (Failed err)
      | inr response =>
        push_etag {| part := partNumber; etag := part_etag response |} ;;;
        ret Done
      end
    end
  end.

(** [_flush(callback)] *)
Definition _flush : M Signal :=
  u <- get ;;
  if emptyStream u then
    let method := "PUT" in
    let headers :=
      Object_assign metaData {[ "Content-Length" := HNum 0 ]} in
    let options :=
      {| method := method; headers := headers; query := QueryEmpty;
         opt_bucketName := bucketName; opt_objectName := objectName |} in
    r <- call (EvMakeRequest options [])
              (λ t, makeRequest client t options []) ;;
    match r with
    | inl err => ret (Failed err)
    | inr response =>
      callback (CbResult (result_of response)) ;;;
      ret Done
    end
  else
  match id u with
  | None => ret Pending
  | Some upload_id =>
    r <- call (EvCompleteMultipartUpload bucketName objectName upload_id (etags u))
              (λ t, completeMultipartUpload client t
                      bucketName objectName upload_id (etags u)) ;;
    match r with
    | inl err => ret (Failed err)
    | inr etag =>
      callback (CbEtag etag) ;;;
      ret Done
    end
  end.

(** ** The stream

    [ObjectUploader] extends node's [Transform]. The stream hands the
    chunks written to it to [_transform] one at a time, the next one when
    [callback()] was called. [callback(err)] destroys the stream, which
    emits ['error']: nothing more is handed over. Where the callback is
    never called the stream waits. *)

Fixpoint write (fuel : nat) (chunks : list Buffer) : M Signal :=
  match chunks with
  | [] => ret Done
  | chunk :: chunks =>
    s <- _transform fuel chunk ;;
    match s with
    | Done => write fuel chunks
    | _ => ret s
    end
  end.

(** [callback(err)]: the stream is destroyed and emits ['error']. *)
Definition settle (s : Signal) : M Signal :=
  match s with
  | Failed err => emit_error err ;;; ret s
  | _ => ret s
  end.

(** The chunks are written, then the stream is ended: [_flush] runs when
    the last chunk is through. *)
Definition pipe (fuel : nat) (chunks : list Buffer) : M Signal :=
  s <- write fuel chunks ;;
  s <- match s with
       | Done => _flush
       | _ => ret s
       end ;;
  settle s.

(** A whole upload, from the constructor on. *)
Definition upload (fuel : nat) (chunks : list Buffer) : World :=
  snd (pipe fuel chunks constructor).

End Uploader.


(** ** Reading a trace *)

(** What a computation adds to the trace. *)
Definition emitted {A} (m : M A) (w : World) : list Event :=
  drop (length (trace w)) (trace (snd (m w))).

Definition count (f : Event → bool) (t : list Event) : nat :=
  length (List.filter f t).

(** A PUT of the whole object: a request with the empty query. *)
Definition is_uploadWhole (e : Event) : bool :=
  match e with
  | EvMakeRequest o _ _ =>
    match query o with QueryEmpty => true | QueryPart _ _ => false end
  | _ => false
  end.

(** The upload of a part: a request with a part number and an upload id. *)
Definition is_uploadPart (e : Event) : bool :=
  match e with
  | EvMakeRequest o _ _ =>
    match query o with QueryEmpty => false | QueryPart _ _ => true end
  | _ => false
  end.

Definition is_uploadPart_of (k : nat) (e : Event) : bool :=
  match e with
  | EvMakeRequest o _ _ =>
    match query o with QueryEmpty => false | QueryPart k' _ => k' =? k end
  | _ => false
  end.

Definition is_hash (e : Event) : bool :=
  match e with EvHash _ => true | _ => false end.

Definition is_findUploadId (e : Event) : bool :=
  match e with EvFindUploadId _ _ _ => true | _ => false end.

Definition is_initiate (e : Event) : bool :=
  match e with EvInitiateNewMultipartUpload _ _ _ _ => true | _ => false end.

Definition is_listParts (e : Event) : bool :=
  match e with EvListParts _ _ _ _ => true | _ => false end.

Definition is_complete (e : Event) : bool :=
  match e with EvCompleteMultipartUpload _ _ _ _ _ => true | _ => false end.

(** The operations of a multipart upload. *)
Definition is_multipart (e : Event) : bool :=
  is_uploadPart e || is_findUploadId e || is_initiate e || is_listParts e
  || is_complete e.

(** The caller's callback called with an error, with a result. *)
Definition is_error (e : Event) : bool :=
  match e with EvCallback (CbError _) => true | _ => false end.

Definition is_result (e : Event) : bool :=
  match e with
  | EvCallback (CbResult _) | EvCallback (CbEtag _) => true
  | _ => false
  end.

Definition error_of {A} (answer : Error + A) : option Error :=
  match answer with inl err => Some err | inr _ => None end.

(** The error a call of the client was answered with, if it was. *)
Definition failure (e : Event) : option Error :=
  match e with
  | EvMakeRequest _ _ a => error_of a
  | EvFindUploadId _ _ a => error_of a
  | EvInitiateNewMultipartUpload _ _ _ a => error_of a
  | EvListParts _ _ _ a => error_of a
  | EvCompleteMultipartUpload _ _ _ _ a => error_of a
  | EvHash _ | EvCallback _ => None
  end.

(** The chunk is short of a part: [chunk.length < this.partSize]. *)
Definition short (partSize : nat) (chunk : Buffer) : bool :=
  (length chunk <? partSize)%nat.

(** The chunks that become parts: all of them from the first one that is
    not short on. Those before it are each PUT as a whole object. *)
Fixpoint parts_of (partSize : nat) (chunks : list Buffer) : list Buffer :=
  match chunks with
  | [] => []
  | chunk :: rest =>
    if short partSize chunk then parts_of partSize rest else chunks
  end.

(** The request for part [k] carries the [k]-th of the chunks [parts]. *)
Definition carries (parts : list Buffer) (e : Event) : Prop :=
  match e with
  | EvMakeRequest o payload _ =>
    match query o with
    | QueryPart k _ => 1 ≤ k ∧ parts !! (k - 1) = Some payload
    | QueryEmpty => True
    end
  | _ => True
  end.

(** What [_transform] may add to the trace for a chunk: hashes of the
    chunk, requests that carry it, the search for a session; not the
    completion. *)
Definition of_chunk (chunk : Buffer) (e : Event) : Prop :=
  match e with
  | EvHash c => c = chunk
  | EvMakeRequest _ payload _ => payload = chunk
  | EvCompleteMultipartUpload _ _ _ _ _ => False
  | EvCallback (CbEtag _) => False
  | _ => True
  end.

(** ** Invariants of a run, between two chunks *)

(** The parts so far are numbered from 1 in the order of their chunks. *)
Definition numbered (partSize : nat) (consumed : list Buffer) (w : World) : Prop :=
  let parts := parts_of partSize consumed in
  partNumber (this w) = S (length parts)
  ∧ map part (etags (this w)) = seq 1 (length parts)
  ∧ Forall (carries parts) (trace w).

(** The session: before it is there, nothing of it is in the trace; once
    it is there, it was searched for once and then either created or
    adopted (an adopted session has its parts listed). *)
Definition session_inv (w : World) : Prop :=
  let t := trace w in
  match id (this w) with
  | None =>
    count is_findUploadId t = 0 ∧ count is_initiate t = 0
    ∧ count is_listParts t = 0
  | Some _ =>
    count is_findUploadId t = 1
    ∧ count is_initiate t + count is_listParts t = 1
  end.

(** What holds of the session wherever the run stops. *)
Definition session_bound (w : World) : Prop :=
  let t := trace w in
  count is_findUploadId t ≤ 1
  ∧ count is_initiate t + count is_listParts t ≤ 1
  ∧ (is_Some (id (this w)) →
     count is_initiate t + count is_listParts t = 1).

(** No call has failed and no error was handed to the caller. *)
Definition clean (t : list Event) : Prop :=
  Forall (λ e, failure e = None ∧ is_error e = false) t.

(** The trace of a run that a failed call has stopped: the failed call is
    the last one and its error goes to the caller, once. *)
Definition halted (t : list Event) : Prop :=
  ∃ h e err,
    t = h ++ [e; EvCallback (CbError err)] ∧ clean h ∧ failure e = Some err.

(** The trace when [_transform] has signalled: [callback(err)] follows the
    failed call, the listener of ['error'] has not run yet. *)
Definition signalled (s : Signal) (t : list Event) : Prop :=
  match s with
  | Done | OutOfFuel => clean t
  | Failed err => ∃ h e, t = h ++ [e] ∧ clean h ∧ failure e = Some err
  | Pending => halted t
  end.

(** The registry records, for part [k], the hex digest of the chunk. *)
Definition already_uploaded
    (registry : gmap nat Part) (k : nat) (digest : string) : Prop :=
  ∃ old, registry !! k = Some old ∧ etag old = Some digest.

(** ** What the specification says of the etag of a part

    Symmetric quoting stripped: a pair of double quotes that encloses the
    etag is removed, and a quote is never removed from one side only. *)

Fixpoint ends_with_quote (s : string) : bool :=
  match s with
  | EmptyString => false
  | String c EmptyString => Ascii.eqb c dquote
  | String _ s' => ends_with_quote s'
  end.

Definition strip_enclosing_quotes (s : string) : string :=
  match s with
  | String c s' =>
    if Ascii.eqb c dquote && ends_with_quote s'
    then replace_trailing_quote s'
    else s
  | EmptyString => s
  end.

(** ** What every call of the client looks like *)

(** A call of the client is for the bucket and the object of the
    constructor; a request is a PUT, and its Content-Length is the length
    of its payload; the session is created with the metadata. *)
Definition addressed
    (bucketName objectName : string) (metaData : Headers) (e : Event) : Prop :=
  match e with
  | EvMakeRequest o payload _ =>
    method o = "PUT"
    ∧ opt_bucketName o = bucketName ∧ opt_objectName o = objectName
    ∧ headers o !! "Content-Length" = Some (HNum (length payload))
  | EvFindUploadId b o _ => b = bucketName ∧ o = objectName
  | EvInitiateNewMultipartUpload b o meta _ =>
    b = bucketName ∧ o = objectName ∧ meta = metaData
  | EvListParts b o _ _ => b = bucketName ∧ o = objectName
  | EvCompleteMultipartUpload b o _ _ _ => b = bucketName ∧ o = objectName
  | EvHash _ | EvCallback _ => True
  end.

(** The metadata goes with the PUT of the whole object, where the headers
    of the chunk win over it; the request for a part has the headers of
    the chunk and nothing else. *)
Definition metadata_placed (metaData : Headers) (e : Event) : Prop :=
  match e with
  | EvMakeRequest o _ _ =>
    match query o with
    | QueryEmpty =>
      ∀ k v, metaData !! k = Some v →
             k ≠ "Content-Length" → k ≠ "Content-MD5" →
             headers o !! k = Some v
    | QueryPart _ _ =>
      ∀ k, is_Some (headers o !! k) → k = "Content-Length" ∨ k = "Content-MD5"
    end
  | _ => True
  end.

(** The call is made in the session [session]: a part goes to it, it is
    the one that was found, created, listed or completed. *)
Definition in_session (session : option string) (e : Event) : Prop :=
  match e with
  | EvMakeRequest o _ _ =>
    match query o with
    | QueryPart _ uploadId => session = Some uploadId
    | QueryEmpty => True
    end
  | EvFindUploadId _ _ (inr found) =>
    if truthy found then session = found else True
  | EvInitiateNewMultipartUpload _ _ _ (inr new_id) => session = Some new_id
  | EvListParts _ _ uploadId _ => session = Some uploadId
  | EvCompleteMultipartUpload _ _ uploadId _ _ => session = Some uploadId
  | _ => True
  end.

(** Where the etag of an entry of [etags] comes from: the response to the
    request for that part, or the registry, where it is the hex digest of
    the chunk of that number. *)
Definition answered (t : list Event) (p : Part) : Prop :=
  ∃ o payload response uploadId,
    In (EvMakeRequest o payload (inr response)) t
    ∧ query o = QueryPart (part p) uploadId
    ∧ etag p = part_etag response.

Definition recorded
    (hex_md5 : Buffer → string) (registry : option (gmap nat Part))
    (parts : list Buffer) (p : Part) : Prop :=
  ∃ r old chunk,
    registry = Some r
    ∧ r !! part p = Some old
    ∧ etag p = etag old
    ∧ parts !! (part p - 1) = Some chunk
    ∧ etag old = Some (hex_md5 chunk).

Definition origin
    (hex_md5 : Buffer → string) (t : list Event)
    (registry : option (gmap nat Part)) (parts : list Buffer) (p : Part) : Prop :=
  answered t p ∨ recorded hex_md5 registry parts p.

(** The request has the base64 MD5 of its payload as Content-MD5. *)
Definition content_md5
    (md5 : Buffer → Buffer) (base64 : Buffer → string) (e : Event) : Prop :=
  match e with
  | EvMakeRequest o payload _ =>
    headers o !! "Content-MD5" = Some (HStr (base64 (md5 payload)))
  | _ => True
  end.

(** ** Small clients to run the uploader on *)

Module Toy.

Definition md5 (b : Buffer) : Buffer := b.
Definition hex (b : Buffer) : string := string_of_list_byte b.
Definition base64 (b : Buffer) : string :=
  String "="%char (string_of_list_byte b).
Definition sanitizeETag (s : option string) : string :=
  replace_trailing_quote (replace_leading_quote (default EmptyString s)).
Definition getVersionId (h : gmap string string) : option string :=
  h !! "x-amz-version-id".

Definition answer (etag : string) : Response :=
  {| response_headers := {[ "etag" := etag ]} |}.

(** Every call succeeds and no upload is pending. *)
Definition fresh : Client :=
  {| enableSHA256 := false;
     makeRequest := λ _ _ _, inr (answer "e");
     findUploadId := λ _ _ _, inr None;
     initiateNewMultipartUpload := λ _ _ _ _, inr "id1";
     listParts := λ _ _ _ _, inr None;
     completeMultipartUpload := λ _ _ _ _ _, inr "done" |}.

(** An upload is pending: its first part is [xy], its second part is not
    the one that will be sent. *)
Definition listing : list Part :=
  [ {| part := 1; etag := Some "xy" |};
    {| part := 2; etag := Some "old" |};
    {| part := 1; etag := Some "late" |} ].

Definition resuming : Client :=
  {| enableSHA256 := true;
     makeRequest := λ _ _ _, inr (answer "e");
     findUploadId := λ _ _ _, inr (Some "id0");
     initiateNewMultipartUpload := λ _ _ _ _, inr "id1";
     listParts := λ _ _ _ _, inr (Some listing);
     completeMultipartUpload := λ _ _ _ _ _, inr "done" |}.

(** The request for the second part fails. *)
Definition failing : Client :=
  {| enableSHA256 := false;
     makeRequest := λ t _ _,
       if (count is_uploadPart t =? 1)%nat
       then inl (MkError "reset") else inr (answer "e");
     findUploadId := λ _ _ _, inr None;
     initiateNewMultipartUpload := λ _ _ _ _, inr "id1";
     listParts := λ _ _ _ _, inr None;
     completeMultipartUpload := λ _ _ _ _ _, inr "done" |}.

(** The etag of a part comes back with a quote in front and none behind. *)
Definition one_quote : Client :=
  {| enableSHA256 := false;
     makeRequest := λ _ _ _, inr (answer (String dquote "abc"));
     findUploadId := λ _ _ _, inr None;
     initiateNewMultipartUpload := λ _ _ _ _, inr "id1";
     listParts := λ _ _ _ _, inr None;
     completeMultipartUpload := λ _ _ _ _ _, inr "done" |}.

Definition x : Buffer := ["x"%byte].
Definition xy : Buffer := ["x"%byte; "y"%byte].
Definition zw : Buffer := ["z"%byte; "w"%byte].

(** The options of the request for part [k] of the upload [uploadId]. *)
Definition part_options (k : nat) (uploadId : string) (chunk : Buffer) : Options :=
  {| method := "PUT";
     headers := <["Content-MD5" := HStr (base64 (md5 chunk))]>
                  {[ "Content-Length" := HNum (length chunk) ]};
     query := QueryPart k uploadId;
     opt_bucketName := "b"; opt_objectName := "o" |}.

Definition transform (c : Client) (partSize : nat) :=
  _transform md5 hex base64 sanitizeETag getVersionId c "b" "o" partSize ∅.

Definition write (c : Client) (partSize : nat) :=
  write md5 hex base64 sanitizeETag getVersionId c "b" "o" partSize ∅.

Definition upload (c : Client) (partSize : nat) :=
  upload md5 hex base64 sanitizeETag getVersionId c "b" "o" partSize ∅.


(** An upload is pending and its two parts are there: [xy] and [zw]. *)
Definition whole_listing : list Part :=
  [ {| part := 1; etag := Some "xy" |};
    {| part := 2; etag := Some "zw" |} ].

Definition resuming_all : Client :=
  {| enableSHA256 := true;
     makeRequest := λ _ _ _, inr (answer "e");
     findUploadId := λ _ _ _, inr (Some "id0");
     initiateNewMultipartUpload := λ _ _ _ _, inr "id1";
     listParts := λ _ _ _ _, inr (Some whole_listing);
     completeMultipartUpload := λ _ _ _ _ _, inr "done" |}.

End Toy.


(** * The stream transformers (dist/esm/transformers.mjs) *)

(** ** A through2 stream

    [Through2(options, transform, flush)] is a stream that calls
    [transform] on every chunk written to it, the next one when the
    callback was called without an error, and [flush] at the end. What
    the two functions do with the stream is recorded in order. *)

Inductive Step (V : Type) :=
| Push (data : Buffer + V)   (* this.push(data) *)
| PushNull                   (* this.push(null) *)
| Callback (err : option V)  (* cb(), cb(err) *)
| Throw (ex : Error)         (* an exception thrown by the parser *)
| ThrowTypeError.            (* a call of what is no function *)

Arguments Push {V} data.
Arguments PushNull {V}.
Arguments Callback {V} err.
Arguments Throw {V} ex.
Arguments ThrowTypeError {V}.

Record Through2 (S V : Type) := {
  objectMode : bool;
  state : S;
  stream_transform : S → Buffer → S * list (Step V);
  stream_flush : S → list (Step V)
}.

Arguments objectMode {S V} _.
Arguments state {S V} _.
Arguments stream_transform {S V} _ _ _.
Arguments stream_flush {S V} _ _.

(** [cb()] was called: the stream goes on. *)
Definition called_back {V} (steps : list (Step V)) : bool :=
  existsb (λ s, match s with Callback None => true | _ => false end) steps.

Fixpoint through {S V}
    (transform : S → Buffer → S * list (Step V)) (flush : S → list (Step V))
    (s : S) (chunks : list Buffer) : list (Step V) :=
  match chunks with
  | [] => flush s
  | chunk :: chunks =>
    let '(s', steps) := transform s chunk in
    if called_back steps
    then steps ++ through transform flush s' chunks
    else steps
  end.

(** The chunks are written to the stream, then it is ended. *)
Definition run {S V} (stream : Through2 S V) (chunks : list Buffer) :
    list (Step V) :=
  through (stream_transform stream) (stream_flush stream) (state stream) chunks.

(** What the stream pushed, apart from its end. *)
Definition pushed {V} (steps : list (Step V)) : list (Buffer + V) :=
  omap (λ s, match s with Push data => Some data | _ => None end) steps.

(** The errors the stream called back with. *)
Definition errors_of {V} (steps : list (Step V)) : list V :=
  omap (λ s, match s with Callback (Some err) => Some err | _ => None end)
       steps.

Definition throws {V} (steps : list (Step V)) : bool :=
  existsb (λ s, match s with Throw _ | ThrowTypeError => true | _ => false end)
          steps.

(** ** getConcater *)

Section Concater.

Context {V : Type}.

(** [Buffer.prototype.toString()] *)
Context (toString : Buffer → string).

(** [getConcater(parser, emitError)]: [bufs] is the state. The parser is
    a function or is not given; it returns a value or throws. *)
Definition getConcater
    (parser : option (string → Error + V)) (emitError : bool) :
    Through2 (list Buffer) V :=
  {| objectMode := match parser with Some _ => true | None => false end;
     state := [];
     stream_transform := λ bufs chunk,
       (* bufs.push(chunk); cb() *)
       (bufs ++ [chunk], [Callback None]);
     stream_flush := λ bufs,
       if emitError then
         match parser with
         | None => [ThrowTypeError]
         | Some parser =>
           match parser (toString (concat bufs)) with
           | inl ex => [Throw ex]
           | inr err => [Callback (Some err); PushNull]
           end
         end
       else
         match bufs with
         | [] => [Callback None]
         | _ :: _ =>
           match parser with
           | Some parser =>
             match parser (toString (concat bufs)) with
             | inl ex => [Throw ex]
             | inr parsed => [Push (inr parsed); Callback None]
             end
           | None => [Push (inl (concat bufs)); Callback None]
           end
         end |}.

End Concater.

(** ** getErrorTransformer *)

(** The three headers of the response that go into the error; [None] is
    [null], [Some None] a header that is not there. *)
Record HeaderInfo := {
  amzRequestid : option (option string);
  amzId2 : option (option string);
  amzBucketRegion : option (option string)
}.

(** [errors.S3Error] with the properties that are set on it. *)
Record S3Error := {
  s3_message : string;
  code : string;
  s3_headerInfo : HeaderInfo
}.

(** The response of node:http, as far as it is read. *)
Record IncomingMessage := {
  statusCode : Z;
  headersSent : bool;
  getHeader : string → option string
}.

Section ErrorTransformer.

Context (toString : Buffer → string).

(** [xmlParsers.parseError] of ./xml-parsers.mjs: it returns an error or
    throws. *)
Context (parseError : string → HeaderInfo → Error + S3Error).

(** The code and the message for a status. *)
Definition status_code_message (statusCode : Z) : string * string :=
  if (statusCode =? 301)%Z then ("MovedPermanently", "Moved Permanently")
  else if (statusCode =? 307)%Z
       then ("TemporaryRedirect", "Are you using the correct endpoint URL?")
  else if (statusCode =? 403)%Z
       then ("AccessDenied", "Valid and authorized credentials required")
  else if (statusCode =? 404)%Z then ("NotFound", "Not Found")
  else if (statusCode =? 405)%Z then ("MethodNotAllowed", "Method Not Allowed")
  else if (statusCode =? 501)%Z then ("MethodNotAllowed", "Method Not Allowed")
  else ("UnknownError", pretty statusCode).

Definition headerInfo_of (response : IncomingMessage) : HeaderInfo :=
  let header name :=
    if headersSent response then Some (getHeader response name) else None in
  {| amzRequestid := header "x-amz-request-id";
     amzId2 := header "x-amz-id-2";
     amzBucketRegion := header "x-amz-bucket-region" |}.

(** [getError()] *)
Definition getError (response : IncomingMessage) : S3Error :=
  let '(code, message) := status_code_message (statusCode response) in
  {| s3_message := message; code := code;
     s3_headerInfo := headerInfo_of response |}.

(** The parser that [getErrorTransformer] hands to [getConcater]. *)
Definition error_parser (response : IncomingMessage) (xmlString : string) :
    Error + S3Error :=
  match xmlString with
  | EmptyString => inr (getError response)
  | String _ _ =>
    match parseError xmlString (headerInfo_of response) with
    | inl ex => inr (getError response)
    | inr e => inr e
    end
  end.

Definition getErrorTransformer (response : IncomingMessage) :
    Through2 (list Buffer) S3Error :=
  getConcater toString (Some (error_parser response)) true.

End ErrorTransformer.

(** ** getHashSummer *)

Record HashData := { md5sum : string; sha256sum : string }.

(** The two hashes of node:crypto: what [update] has fed them so far. *)
Record Hashes := { md5_fed : Buffer; sha256_fed : Buffer }.

Section HashSummer.

(** The digests of node:crypto and the encodings of [digest]. *)
Context (md5 sha256 : Buffer → Buffer) (hex base64 : Buffer → string).

Definition getHashSummer (enableSHA256 : bool) : Through2 Hashes HashData :=
  {| objectMode := true;
     state := {| md5_fed := []; sha256_fed := [] |};
     stream_transform := λ h chunk,
       (if enableSHA256
        then {| md5_fed := md5_fed h; sha256_fed := sha256_fed h ++ chunk |}
        else {| md5_fed := md5_fed h ++ chunk; sha256_fed := sha256_fed h |},
        [Callback None]);
     stream_flush := λ h,
       let hashData :=
         if enableSHA256
         then {| md5sum := EmptyString;
                 sha256sum := hex (sha256 (sha256_fed h)) |}
         else {| md5sum := base64 (md5 (md5_fed h));
                 sha256sum := EmptyString |} in
       [Push (inr hashData); PushNull; Callback None] |}.

End HashSummer.

(** * The client (the class [TypedClient], in the same file) *)

Module TypedClient.

Inductive Exception :=
| PlainError (message : string)            (* new Error(...) *)
| InvalidEndpointError (message : string)
| InvalidArgumentError (message : string)
| TypeError (message : string).

(** A value of an option of a request. *)
Inductive Value (Agent : Type) :=
| VUndefined
| VString (s : string)
| VNumber (n : Z)
| VBoolean (b : bool)
| VBuffer (b : Buffer)
| VAgent (a : Agent)
| VHeaders (h : gmap string string).

Arguments VUndefined {Agent}.
Arguments VString {Agent} s.
Arguments VNumber {Agent} n.
Arguments VBoolean {Agent} b.
Arguments VBuffer {Agent} b.
Arguments VAgent {Agent} a.
Arguments VHeaders {Agent} h.

Definition requestOptionProperties : list string :=
  [ "agent"; "ca"; "cert"; "ciphers"; "clientCertEngine"; "crl"; "dhparam";
    "ecdhCurve"; "family"; "honorCipherOrder"; "key"; "passphrase"; "pfx";
    "rejectUnauthorized"; "secureOptions"; "secureProtocol"; "servername";
    "sessionIdContext" ].

(** A word between double quotes, in a message. *)
Definition quoted (s : string) : string :=
  String dquote (s +:+ String dquote EmptyString).

(** [s.includes('.')] *)
Fixpoint includes_dot (s : string) : bool :=
  match s with
  | EmptyString => false
  | String c s' => Ascii.eqb c "."%char || includes_dot s'
  end.

(** A value that may be undefined, inside a template literal. *)
Definition template (s : option string) : string := default "undefined" s.

(** [v.toString()] of the value of a header. *)
Definition header_toString (v : HeaderValue) : string :=
  match v with
  | HNum n => pretty n
  | HStr s => s
  end.

(** [!s] on a string. *)
Definition not_string (s : string) : bool :=
  match s with EmptyString => true | String _ _ => false end.

Definition Package_version : string := "7.1.1".

Section Client.

(** node:http and node:https, their agents, the credentials provider. *)
Context {Transport Agent CredentialProvider : Type}.
Context (http https : Transport) (http_globalAgent https_globalAgent : Agent).

(** [process.platform] and [process.arch]; the string a template literal
    makes of an object; [String.prototype.toLowerCase]. *)
Context (platform arch : string).
Context (String_of : ∀ A : Type, A → string).
Context (toLowerCase : string → string).

(** The functions of ./internal/helper.mjs and ./internal/s3-endpoints.mjs. *)
Context (isValidEndpoint : string → bool) (isValidPort : Z → bool).
Context (isObject : ∀ A : Type, A → bool).
Context (isEmpty : option string → bool).
Context (isDefined : HeaderValue → bool).
Context (isVirtualHostStyle : string → string → string → bool → bool).
Context (uriResourceEscape : string → string).
Context (isAmazonEndpoint : string → bool).
Context (getS3Endpoint : option string → string).

(** The argument of the constructor. Its fields have the types of
    [ClientOptions], so that [useSSL] is a boolean and [region] a string
    where they are given; an option that is not given is [None]. *)
Record ClientOptions := {
  params_secure : option bool;
  params_endPoint : string;
  params_accessKey : option string;
  params_secretKey : option string;
  params_sessionToken : option string;
  params_useSSL : option bool;
  params_port : option Z;
  params_region : option string;
  params_transport : option Transport;
  params_transportAgent : option Agent;
  params_partSize : option Z;
  params_pathStyle : option bool;
  params_credentialsProvider : option CredentialProvider;
  params_s3AccelerateEndpoint : option string
}.

(** The fields of the client. *)
Record TypedClient := {
  partSize : Z;
  maximumPartSize : Z;
  maxObjectSize : Z;
  transport : Transport;
  transportAgent : Agent;
  host : string;
  port : Z;
  protocol : string;
  userAgent : string;
  pathStyle : bool;
  accessKey : string;
  secretKey : string;
  sessionToken : option string;
  anonymous : bool;
  credentialsProvider : option CredentialProvider;
  regionMap : gmap string string;
  region : option string;
  overRidePartSize : bool;
  enableSHA256 : bool;
  s3AccelerateEndpoint : option string;
  reqOptions : gmap string (Value Agent)
}.

(** [constructor(params)]. What it assigns to [params.useSSL] and to
    [params.port] is [useSSL] and [port] here. *)
Definition constructor (params : ClientOptions) : Exception + TypedClient :=
  match params_secure params with
  | Some _ =>
    inl (PlainError (quoted "secure" +:+ " option deprecated, "
                     +:+ quoted "useSSL" +:+ " should be used instead"))
  | None =>
  let useSSL := default true (params_useSSL params) in
  let port := default 0%Z (params_port params) in
  if negb (isValidEndpoint (params_endPoint params)) then
    inl (InvalidEndpointError ("Invalid endPoint : " +:+ params_endPoint params))
  else if negb (isValidPort port) then
    inl (InvalidArgumentError ("Invalid port : " +:+ pretty port))
  else
  let host := toLowerCase (params_endPoint params) in
  let '(transport, protocol, port, transportAgent) :=
    if useSSL
    then (https, "https:", (if (port =? 0)%Z then 443%Z else port),
          https_globalAgent)
    else (http, "http:", (if (port =? 0)%Z then 80%Z else port),
          http_globalAgent) in
  match
    match params_transport params with
    | Some custom =>
      if negb (isObject Transport custom)
      then inl (InvalidArgumentError
                  ("Invalid transport type : " +:+ String_of Transport custom
                   +:+ ", expected to be type " +:+ quoted "object"))
      else inr custom
    | None => inr transport
    end
  with
  | inl ex => inl ex
  | inr transport =>
  match
    match params_transportAgent params with
    | Some custom =>
      if negb (isObject Agent custom)
      then inl (InvalidArgumentError
                  ("Invalid transportAgent type: " +:+ String_of Agent custom
                   +:+ ", expected to be type " +:+ quoted "object"))
      else inr custom
    | None => inr transportAgent
    end
  with
  | inl ex => inl ex
  | inr transportAgent =>
  let libraryComments := "(" +:+ platform +:+ "; " +:+ arch +:+ ")" in
  let libraryAgent :=
    "MinIO " +:+ libraryComments +:+ " minio-js/" +:+ Package_version in
  let accessKey := default EmptyString (params_accessKey params) in
  let secretKey := default EmptyString (params_secretKey params) in
  let anonymous := not_string accessKey || not_string secretKey in
  let '(partSize, overRidePartSize) :=
    match params_partSize params with
    | Some size => if (size =? 0)%Z then ((64 * 1024 * 1024)%Z, false)
                   else (size, true)
    | None => ((64 * 1024 * 1024)%Z, false)
    end in
  if (partSize <? 5 * 1024 * 1024)%Z then
    inl (InvalidArgumentError "Part size should be greater than 5MB")
  else if (5 * 1024 * 1024 * 1024 <? partSize)%Z then
    inl (InvalidArgumentError "Part size should be less than 5GB")
  else
  inr {| partSize := partSize;
         maximumPartSize := (5 * 1024 * 1024 * 1024)%Z;
         maxObjectSize := (5 * 1024 * 1024 * 1024 * 1024)%Z;
         transport := transport;
         transportAgent := transportAgent;
         host := host;
         port := port;
         protocol := protocol;
         userAgent := libraryAgent;
         pathStyle := default true (params_pathStyle params);
         accessKey := accessKey;
         secretKey := secretKey;
         sessionToken := params_sessionToken params;
         anonymous := anonymous;
         credentialsProvider := params_credentialsProvider params;
         regionMap := ∅;
         region := if truthy (params_region params)
                   then params_region params else None;
         overRidePartSize := overRidePartSize;
         enableSHA256 := negb anonymous && negb useSSL;
         s3AccelerateEndpoint :=
           if truthy (params_s3AccelerateEndpoint params)
           then params_s3AccelerateEndpoint params else None;
         reqOptions := ∅ |}
  end
  end
  end.

Definition set_reqOptions
    (this : TypedClient) (options : gmap string (Value Agent)) : TypedClient :=
  {| partSize := partSize this; maximumPartSize := maximumPartSize this;
     maxObjectSize := maxObjectSize this; transport := transport this;
     transportAgent := transportAgent this; host := host this;
     port := port this; protocol := protocol this;
     userAgent := userAgent this; pathStyle := pathStyle this;
     accessKey := accessKey this; secretKey := secretKey this;
     sessionToken := sessionToken this; anonymous := anonymous this;
     credentialsProvider := credentialsProvider this;
     regionMap := regionMap this; region := region this;
     overRidePartSize := overRidePartSize this;
     enableSHA256 := enableSHA256 this;
     s3AccelerateEndpoint := s3AccelerateEndpoint this;
     reqOptions := options |}.

(** [_.pick(options, keys)] *)
Definition pick (options : gmap string (Value Agent)) (keys : list string) :
    gmap string (Value Agent) :=
  filter (λ kv, kv.1 ∈ keys) options.

(** [setRequestOptions(options)] *)
Definition setRequestOptions
    (this : TypedClient) (options : gmap string (Value Agent)) :
    Exception + TypedClient :=
  if negb (isObject _ options) then
    inl (TypeError ("request options should be of type " +:+ quoted "object"))
  else inr (set_reqOptions this (pick options requestOptionProperties)).

(** [getAccelerateEndPointIfSet(bucketName, objectName)]; [None] is
    [false], or the endpoint that is not set. *)
Definition getAccelerateEndPointIfSet
    (this : TypedClient) (bucketName objectName : option string) :
    Exception + option string :=
  if negb (isEmpty (s3AccelerateEndpoint this)) && negb (isEmpty bucketName)
     && negb (isEmpty objectName) then
    match bucketName with
    | None =>
      inl (TypeError "Cannot read properties of undefined (reading 'includes')")
    | Some bucket =>
      if includes_dot bucket then
        inl (PlainError
               ("Transfer Acceleration is not supported for non compliant bucket:"
                +:+ bucket))
      else inr (s3AccelerateEndpoint this)
    end
  else inr None.

(** The argument of [getRequestOptions]; the headers are the entries of
    the object, in their order. *)
Record RequestOption := {
  opts_method : string;
  opts_region : option string;
  opts_bucketName : option string;
  opts_objectName : option string;
  opts_headers : option (list (string * HeaderValue));
  opts_query : option string;
  opts_pathStyle : option bool
}.

(** [for (const [k, v] of Object.entries(headers))
       reqOptions.headers[k.toLowerCase()] = v] *)
Definition lower_case_headers
    (headers : list (string * HeaderValue)) (acc : gmap string HeaderValue) :
    gmap string HeaderValue :=
  foldl (λ acc kv, <[toLowerCase kv.1 := kv.2]> acc) acc headers.

(** [getRequestOptions(opts)], in three parts: the host and the path of
    the request, its headers, and the object that is returned. *)

(** The host and the path: virtual-host style or path style. *)
Definition request_host_path (this : TypedClient) (opts : RequestOption) :
    Exception + string * string :=
  let region := opts_region opts in
  let bucketName := opts_bucketName opts in
  let objectName := opts_objectName opts in
  let query := opts_query opts in
  let virtualHostStyle :=
    if truthy bucketName
    then isVirtualHostStyle (host this) (protocol this)
                            (template bucketName) (pathStyle this)
    else false in
  let path := "/" in
  let host := host this in
  let objectName :=
    if truthy objectName then uriResourceEscape <$> objectName
    else objectName in
  match
    if isAmazonEndpoint host then
      match getAccelerateEndPointIfSet this bucketName objectName with
      | inl ex => inl ex
      | inr accelerateEndPoint =>
        if truthy accelerateEndPoint
        then inr (template accelerateEndPoint)
        else inr (getS3Endpoint region)
      end
    else inr host
  with
  | inl ex => inl ex
  | inr host =>
  let '(host, path) :=
    if virtualHostStyle && negb (default false (opts_pathStyle opts)) then
      (if truthy bucketName then template bucketName +:+ "." +:+ host else host,
       if truthy objectName then "/" +:+ template objectName else path)
    else
      (host,
       let path := if truthy bucketName then "/" +:+ template bucketName
                   else path in
       if truthy objectName
       then "/" +:+ template bucketName +:+ "/" +:+ template objectName
       else path) in
  let path := if truthy query then path +:+ "?" +:+ template query else path in
  inr (host, path)
  end.

(** [let port; if (this.port) port = this.port] *)
Definition request_port (this : TypedClient) : option Z :=
  if (port this =? 0)%Z then None else Some (port this).

(** [reqOptions.headers]. *)
Definition request_headers
    (this : TypedClient) (opts : RequestOption) (host : string) :
    gmap string HeaderValue :=
  let port := request_port this in
  let host_header :=
    if String.eqb (protocol this) "http:"
       && negb (bool_decide (port = Some 80%Z))
       || String.eqb (protocol this) "https:"
          && negb (bool_decide (port = Some 443%Z))
    then host +:+ ":" +:+ template (pretty <$> port)
    else host in
  let reqOptions_headers : gmap string HeaderValue :=
    <["user-agent" := HStr (userAgent this)]> {[ "host" := HStr host_header ]} in
  match opts_headers opts with
  | Some headers => lower_case_headers headers reqOptions_headers
  | None => reqOptions_headers
  end.

Definition getRequestOptions (this : TypedClient) (opts : RequestOption) :
    Exception + gmap string (Value Agent) :=
  let reqOptions' : gmap string (Value Agent) :=
    {[ "method" := VString (opts_method opts);
       "protocol" := VString (protocol this);
       "agent" := VAgent (transportAgent this) ]} in
  match request_host_path this opts with
  | inl ex => inl ex
  | inr (host, path) =>
    (* Object.assign({}, this.reqOptions, reqOptions) *)
    let reqOptions' := reqOptions' ∪ reqOptions this in
    inr (<["path" := VString path]>
         (<["port" := from_option VNumber VUndefined (request_port this)]>
         (<["host" := VString host]>
         (<["headers" :=
              VHeaders (header_toString <$>
                        filter (λ kv, isDefined kv.2 = true)
                               (request_headers this opts host))]>
          reqOptions'))))
  end.

End Client.

End TypedClient.

(** ** A small client to construct *)

Module ToyClient.

Definition lower (c : ascii) : ascii :=
  let n := nat_of_ascii c in
  if (65 <=? n)%nat && (n <=? 90)%nat then ascii_of_nat (n + 32) else c.

Fixpoint toLowerCase (s : string) : string :=
  match s with
  | EmptyString => EmptyString
  | String c s' => String (lower c) (toLowerCase s')
  end.

Definition isValidEndpoint (s : string) : bool := negb (TypedClient.not_string s).
Definition isValidPort (p : Z) : bool := (0 <=? p)%Z && (p <=? 65535)%Z.
Definition isObject (A : Type) (a : A) : bool := true.
Definition isEmpty (s : option string) : bool := negb (truthy s).
Definition isDefined (v : HeaderValue) : bool := true.
Definition isVirtualHostStyle (host protocol bucket : string) (pathStyle : bool) :
    bool := negb pathStyle.
Definition uriResourceEscape (s : string) : string := s.
Definition isAmazonEndpoint (host : string) : bool :=
  String.eqb host "s3.amazonaws.com".
Definition getS3Endpoint (region : option string) : string := "s3.amazonaws.com".

(** The transports and the agents are their names, there is no
    credentials provider. *)
Definition ClientOptions : Type := @TypedClient.ClientOptions string string unit.
Definition TypedClient : Type := @TypedClient.TypedClient string string unit.

Definition constructor :=
  TypedClient.constructor (CredentialProvider := unit)
    "http" "https" "http.globalAgent" "https.globalAgent" "linux" "x64"
    (λ _ _, "[object Object]") toLowerCase isValidEndpoint isValidPort isObject.

Definition setRequestOptions :=
  TypedClient.setRequestOptions
    (Transport := string) (Agent := string) (CredentialProvider := unit)
    isObject.

Definition getRequestOptions :=
  TypedClient.getRequestOptions
    (Transport := string) (Agent := string) (CredentialProvider := unit)
    toLowerCase isEmpty isDefined isVirtualHostStyle uriResourceEscape
    isAmazonEndpoint getS3Endpoint.

(** A server on port 9000, with keys, over https by default. *)
Definition params : ClientOptions :=
  {| TypedClient.params_secure := None;
     TypedClient.params_endPoint := "Play.Min.IO";
     TypedClient.params_accessKey := Some "key";
     TypedClient.params_secretKey := Some "secret";
     TypedClient.params_sessionToken := None;
     TypedClient.params_useSSL := None;
     TypedClient.params_port := Some 9000%Z;
     TypedClient.params_region := None;
     TypedClient.params_transport := None;
     TypedClient.params_transportAgent := None;
     TypedClient.params_partSize := None;
     TypedClient.params_pathStyle := None;
     TypedClient.params_credentialsProvider := None;
     TypedClient.params_s3AccelerateEndpoint := None |}.

(** Amazon S3 with transfer acceleration. *)
Definition amazon : ClientOptions :=
  {| TypedClient.params_secure := None;
     TypedClient.params_endPoint := "s3.amazonaws.com";
     TypedClient.params_accessKey := Some "key";
     TypedClient.params_secretKey := Some "secret";
     TypedClient.params_sessionToken := None;
     TypedClient.params_useSSL := None;
     TypedClient.params_port := None;
     TypedClient.params_region := None;
     TypedClient.params_transport := None;
     TypedClient.params_transportAgent := None;
     TypedClient.params_partSize := Some (16 * 1024 * 1024)%Z;
     TypedClient.params_pathStyle := None;
     TypedClient.params_credentialsProvider := None;
     TypedClient.params_s3AccelerateEndpoint :=
       Some "s3-accelerate.amazonaws.com" |}.

(** The client that the constructor returns, or a client that it never
    returns. *)
Definition client_of (params : ClientOptions) : TypedClient :=
  match constructor params with
  | inr client => client
  | inl _ =>
    {| TypedClient.partSize := 0; TypedClient.maximumPartSize := 0;
       TypedClient.maxObjectSize := 0; TypedClient.transport := EmptyString;
       TypedClient.transportAgent := EmptyString;
       TypedClient.host := EmptyString; TypedClient.port := 0;
       TypedClient.protocol := EmptyString;
       TypedClient.userAgent := EmptyString; TypedClient.pathStyle := true;
       TypedClient.accessKey := EmptyString;
       TypedClient.secretKey := EmptyString;
       TypedClient.sessionToken := None; TypedClient.anonymous := true;
       TypedClient.credentialsProvider := None; TypedClient.regionMap := ∅;
       TypedClient.region := None; TypedClient.overRidePartSize := false;
       TypedClient.enableSHA256 := false;
       TypedClient.s3AccelerateEndpoint := None;
       TypedClient.reqOptions := ∅ |}
  end.

(** A request for an object, with headers whose names differ in case. *)
Definition opts : TypedClient.RequestOption :=
  {| TypedClient.opts_method := "PUT";
     TypedClient.opts_region := None;
     TypedClient.opts_bucketName := Some "bucket";
     TypedClient.opts_objectName := Some "object";
     TypedClient.opts_headers :=
       Some [ ("Content-Length", HNum 2); ("X-Amz-Meta-A", HStr "first");
              ("x-amz-meta-a", HStr "last") ];
     TypedClient.opts_query := None;
     TypedClient.opts_pathStyle := None |}.


(** The options of a request that are set on a client: an agent, a
    certificate authority and an option that is not in the list. *)
Definition options : gmap string (TypedClient.Value string) :=
  {[ "agent" := TypedClient.VAgent "custom.agent";
     "ca" := TypedClient.VString "authority";
     "timeout" := TypedClient.VNumber 5%Z ]}.

(** The client after [setRequestOptions(options)]. *)
Definition with_options
    (client : TypedClient) (options : gmap string (TypedClient.Value string)) :
    TypedClient :=
  match setRequestOptions client options with
  | inr client => client
  | inl _ => client
  end.

(** What [getRequestOptions] returns, or no option where it throws. *)
Definition request_of (client : TypedClient) (opts : TypedClient.RequestOption) :
    gmap string (TypedClient.Value string) :=
  match getRequestOptions client opts with
  | inr r => r
  | inl _ => ∅
  end.

End ToyClient.


(** * Proofs *)

(** ** The registry of old parts *)

Lemma foldl_reducer_lookup (listing : list Part) : ∀ (acc : gmap nat Part) (k : nat),
  foldl reducer acc listing !! k =
  match acc !! k with
  | Some p => Some p
  | None => List.find (λ item, part item =? k) listing
  end.
Proof.
  induction listing as [|item l IH]; intros acc k; cbn.
  - by destruct (acc !! k).
  - rewrite IH. unfold reducer.
    destruct (Nat.eqb_spec (part item) k) as [->|Hne].
    + destruct (acc !! k) eqn:Hk; [by rewrite Hk|]. by rewrite lookup_insert_eq.
    + destruct (acc !! part item) eqn:Hi; [done|].
      by rewrite lookup_insert_ne.
Qed.

(** C6. The registry built from a listing maps each part number to the
    first entry of the listing with that number, whatever comes later; a
    listing that is absent or empty gives the empty registry. *)
Theorem oldParts_first_entry_wins :
  (∀ (listing : list Part) (k : nat),
     build_oldParts (Some listing) !! k =
     List.find (λ item, part item =? k) listing)
  ∧ (∀ (before after : list Part) (item : Part),
       (∀ other, In other before → part other ≠ part item) →
       build_oldParts (Some (before ++ item :: after)) !! part item = Some item)
  ∧ build_oldParts None = ∅
  ∧ build_oldParts (Some []) = ∅.
Proof.
  assert (H : ∀ (listing : list Part) (k : nat),
     build_oldParts (Some listing) !! k =
     List.find (λ item, part item =? k) listing).
  { intros listing k. unfold build_oldParts. cbn.
    by rewrite foldl_reducer_lookup, lookup_empty. }
  repeat split; try done.
  intros before after item Hb. rewrite H.
  induction before as [|b before IH]; cbn.
  - by rewrite Nat.eqb_refl.
  - destruct (Nat.eqb_spec (part b) (part item)) as [Heq|Hne].
    + exfalso. apply (Hb b); [by left|done].
    + apply IH. intros other Ho. apply Hb. by right.
Qed.

(** ** The etag of a part *)

Lemma replace_trailing_quote_snoc (s : string) :
  replace_trailing_quote (s +:+ String dquote EmptyString) = s.
Proof.
  induction s as [|c s IH]; [done|].
  destruct s as [|c' s']; [done|].
  change (String c (replace_trailing_quote
                      (String c' s' +:+ String dquote EmptyString))
          = String c (String c' s')).
  by rewrite IH.
Qed.

Lemma replace_trailing_quote_none (s : string) :
  ends_with_quote s = false → replace_trailing_quote s = s.
Proof.
  induction s as [|c s IH]; [done|].
  cbn. destruct s as [|c' s'].
  - by intros ->.
  - intros H. by rewrite IH.
Qed.

Lemma replace_leading_quote_none (c : ascii) (s : string) :
  c ≠ dquote → replace_leading_quote (String c s) = String c s.
Proof. intros H. cbn. by destruct (Ascii.eqb_spec c dquote). Qed.

(** ** Counting the events of a trace *)

Lemma count_app f (a b : list Event) : count f (a ++ b) = count f a + count f b.
Proof. unfold count. by rewrite List.filter_app, length_app. Qed.

Lemma count_cons f e (t : list Event) :
  count f (e :: t) = (if f e then 1 else 0) + count f t.
Proof. unfold count. cbn. by destruct (f e). Qed.

Lemma count_zero f (t : list Event) :
  count f t = 0 ↔ ∀ e, In e t → f e = false.
Proof.
  induction t as [|e t IH]; [done|].
  rewrite count_cons. split.
  - intros H e' [<-|Hin]; [by destruct (f e)|].
    apply IH; [|done]. destruct (f e); [done|lia].
  - intros H. rewrite (H e) by (by left). apply IH. intros e' He'.
    apply H. by right.
Qed.

Lemma count_nil f : count f [] = 0.
Proof. done. Qed.

Lemma emitted_extends {A} (m : M A) (w : World) (new : list Event) :
  trace (snd (m w)) = trace w ++ new → emitted m w = new.
Proof. unfold emitted. intros ->. apply drop_app_length. Qed.

(** ** The uploader, for any client *)

Section Proofs.
Context (md5 : Buffer → Buffer) (hex base64 : Buffer → string).
Context (sanitizeETag : option string → string).
Context (getVersionId : gmap string string → option string).
Context (client : Client) (bucketName objectName : string).
Context (partSize : nat) (metaData : Headers).

Local Abbreviation transform :=
  (_transform md5 hex base64 sanitizeETag getVersionId client
              bucketName objectName partSize metaData).
Local Abbreviation flush :=
  (_flush sanitizeETag getVersionId client bucketName objectName metaData).
Local Abbreviation write_all :=
  (write md5 hex base64 sanitizeETag getVersionId client
         bucketName objectName partSize metaData).
Local Abbreviation pipe_all :=
  (pipe md5 hex base64 sanitizeETag getVersionId client
        bucketName objectName partSize metaData).
Local Abbreviation upload_all :=
  (upload md5 hex base64 sanitizeETag getVersionId client
          bucketName objectName partSize metaData).

(** Comparisons and counts are rewritten, not unfolded. *)
Local Arguments Nat.ltb : simpl never.
Local Arguments count : simpl never.

Ltac unfold_M :=
  unfold bind, ret, get, put, set_emptyStream, set_partNumber, set_oldParts,
    set_id, push_etag, call, record, hash, callback, emit_error, settle in *.

(** One case for each path through the code under the goal, innermost
    tests first. *)
Ltac split_match :=
  match goal with
  | |- context [match ?x with _ => _ end] =>
    lazymatch x with
    | context [match _ with _ => _ end] => fail
    | _ => destruct x eqn:?
    end
  end.

Ltac paths := unfold_M; cbn; repeat (split_match; cbn).

Ltac transform_paths := cbn [_transform]; paths.

Ltac flush_paths := unfold _flush; paths.

(** The counts of the events that were added to a trace. *)
Ltac count_events :=
  rewrite ?count_app, ?count_cons, ?count_nil in *;
  cbn [is_uploadWhole is_uploadPart is_uploadPart_of is_hash is_findUploadId
       is_initiate is_listParts is_complete is_multipart is_error is_result
       query orb] in *.

(** ** The trace grows, the part number grows, the session stays *)

Lemma transform_extends fuel : ∀ chunk w,
  ∃ new, trace (snd (transform fuel chunk w)) = trace w ++ new.
Proof.
  induction fuel as [|n IH]; intros chunk w; [by exists []; rewrite app_nil_r|].
  transform_paths;
    try match goal with
        | |- context [transform n ?c ?w'] =>
          destruct (IH c w') as [new' ->]; cbn
        end;
    rewrite <- ?app_assoc; eauto.
Qed.

Lemma transform_trace fuel chunk w :
  trace (snd (transform fuel chunk w)) = trace w ++ emitted (transform fuel chunk) w.
Proof.
  destruct (transform_extends fuel chunk w) as [new H].
  by rewrite (emitted_extends _ _ _ H).
Qed.


Lemma transform_partNumber fuel : ∀ chunk w,
  partNumber (this w) ≤ partNumber (this (snd (transform fuel chunk w))) ≤ S (partNumber (this w)).
Proof.
  induction fuel as [|n IH]; intros chunk w; [cbn; lia|].
  transform_paths; try lia;
    match goal with
    | |- context [transform n ?c ?w'] => specialize (IH c w'); cbn in IH; lia
    end.
Qed.

Lemma transform_id fuel : ∀ chunk w i,
  id (this w) = Some i →
  id (this (snd (transform fuel chunk w))) = Some i
  ∧ oldParts (this (snd (transform fuel chunk w))) = oldParts (this w).
Proof.
  induction fuel as [|n IH]; intros chunk w i Hi; [done|].
  transform_paths; try done; congruence.
Qed.

Lemma transform_etags fuel : ∀ chunk w,
  ∃ more, etags (this (snd (transform fuel chunk w))) = etags (this w) ++ more.
Proof.
  induction fuel as [|n IH]; intros chunk w; [by exists []; rewrite app_nil_r|].
  transform_paths;
    try match goal with
        | |- context [transform n ?c ?w'] =>
          destruct (IH c w') as [more' ->]; cbn
        end;
    eauto; by exists []; rewrite app_nil_r.
Qed.

(** ** Fuel: two calls of [_transform] are enough for a chunk *)

Lemma transform_ready n chunk w i :
  id (this w) = Some i → transform (S n) chunk w = transform 1 chunk w.
Proof. intros Hi. transform_paths; try done; congruence. Qed.

Lemma transform_ready_total n chunk w i :
  id (this w) = Some i → fst (transform (S n) chunk w) ≠ OutOfFuel.
Proof. intros Hi. transform_paths; try done; congruence. Qed.

Lemma transform_fuel n chunk w :
  transform (S (S n)) chunk w = transform 2 chunk w.
Proof.
  cbn [_transform]. unfold_M. cbn. repeat (split_match; cbn); try done.
Qed.

Lemma transform_total fuel chunk w :
  2 ≤ fuel → fst (transform fuel chunk w) ≠ OutOfFuel.
Proof.
  intros Hf. destruct fuel as [|[|n]]; try lia.
  cbn [_transform]. unfold_M. cbn. repeat (split_match; cbn); try done.
Qed.


(** ** The end of the stream *)

Lemma flush_this w : this (snd (flush w)) = this w.
Proof. flush_paths; done. Qed.

Lemma flush_extends w : ∃ new, trace (snd (flush w)) = trace w ++ new.
Proof.
  flush_paths; rewrite <- ?app_assoc; eauto. by exists []; rewrite app_nil_r.
Qed.

Lemma flush_not_empty w :
  emptyStream (this w) = false → count is_uploadWhole (emitted flush w) = 0.
Proof.
  intros He. unfold emitted. flush_paths; try congruence;
    rewrite <- ?app_assoc, ?drop_app_length; try done.
  all: by rewrite <- (app_nil_r (trace w)) at 2; rewrite drop_app_length.
Qed.

Lemma transform_not_empty n chunk w :
  emptyStream (this (snd (transform (S n) chunk w))) = false.
Proof.
  revert w. induction n as [|n IH]; intros w.
  - transform_paths; done.
  - rewrite transform_fuel. transform_paths; done.
Qed.


(** ** One PUT for a small object *)

Lemma assign_lookup (meta h : Headers) k v :
  meta !! k = Some v → h !! k = None → Object_assign meta h !! k = Some v.
Proof.
  intros Hm Hh. unfold Object_assign. rewrite lookup_union_r; done.
Qed.

(** C7. When no chunk was written, the end of the stream PUTs the object
    in one request with an empty body, the metadata as headers and
    Content-Length 0; the caller gets the etag and version id of the
    response, or the error; nothing of a multipart upload happens and no
    session id is set. *)
Theorem empty_stream_one_put fuel :
  let options :=
    {| method := "PUT";
       headers := Object_assign metaData {[ "Content-Length" := HNum 0 ]};
       query := QueryEmpty;
       opt_bucketName := bucketName; opt_objectName := objectName |} in
  let answer := makeRequest client [] options [] in
  let final := upload_all fuel [] in
  trace final =
    [ EvMakeRequest options [] answer;
      EvCallback match answer with
                 | inl err => CbError err
                 | inr response =>
                   CbResult {| result_etag :=
                                 sanitizeETag (response_headers response !! "etag");
                               versionId :=
                                 getVersionId (response_headers response) |}
                 end ]
  ∧ (∀ k v, metaData !! k = Some v → k ≠ "Content-Length" →
            headers options !! k = Some v)
  ∧ count is_uploadWhole (trace final) = 1
  ∧ count is_multipart (trace final) = 0
  ∧ id (this final) = None.
Proof.
  cbn zeta. unfold upload, pipe. cbn [write]. unfold _flush, constructor.
  unfold_M. cbn.
  destruct (makeRequest client [] _ []) as [err|response] eqn:Ha; cbn.
  all: repeat split; try done.
  all: intros k v Hm Hk; apply assign_lookup; [done|].
  all: by rewrite lookup_singleton_ne.
Qed.


Lemma lt_short (chunk : Buffer) : length chunk < partSize → (length chunk <? partSize) = true.
Proof. intros H. by apply Nat.ltb_lt. Qed.

(** C3, amended. When the input is one chunk shorter than the part size,
    the object is PUT in one request that carries the chunk, the metadata
    and the headers of the chunk; the caller gets the etag and version id
    of the response, or the error; nothing of a multipart upload happens
    and no session id is set. *)
Theorem single_short_chunk_one_put fuel (chunk : Buffer) :
  1 ≤ fuel →
  length chunk < partSize →
  let hashed := if enableSHA256 client then [] else [EvHash chunk] in
  let chunk_headers : Headers :=
    if enableSHA256 client
    then {[ "Content-Length" := HNum (length chunk) ]}
    else <["Content-MD5" := HStr (base64 (md5 chunk))]>
           {[ "Content-Length" := HNum (length chunk) ]} in
  let options :=
    {| method := "PUT";
       headers := Object_assign metaData chunk_headers;
       query := QueryEmpty;
       opt_bucketName := bucketName; opt_objectName := objectName |} in
  let answer := makeRequest client hashed options chunk in
  let final := upload_all fuel [chunk] in
  trace final =
    hashed ++
    [ EvMakeRequest options chunk answer;
      EvCallback match answer with
                 | inl err => CbError err
                 | inr response =>
                   CbResult {| result_etag :=
                                 sanitizeETag (response_headers response !! "etag");
                               versionId :=
                                 getVersionId (response_headers response) |}
                 end ]
  ∧ (∀ k v, metaData !! k = Some v →
            k ≠ "Content-Length" → k ≠ "Content-MD5" →
            headers options !! k = Some v)
  ∧ count is_uploadWhole (trace final) = 1
  ∧ count is_multipart (trace final) = 0
  ∧ id (this final) = None.
Proof.
  intros Hf Hs. apply lt_short in Hs.
  destruct fuel as [|n]; [lia|]. clear Hf.
  cbn zeta. unfold upload, pipe. cbn [write _transform]. unfold _flush, constructor.
  unfold_M. cbn. rewrite Hs.
  destruct (enableSHA256 client) eqn:Hsha; cbn.
  all: match goal with
       | |- context [makeRequest client ?t ?o ?c] =>
         destruct (makeRequest client t o c) as [err|response] eqn:Ha
       end; cbn.
  all: repeat split; try done.
  all: intros k v Hm Hk1 Hk2; apply assign_lookup; [done|].
  all: by rewrite ?lookup_insert_ne, lookup_singleton_ne.
Qed.


Lemma transform_stays_not_empty fuel chunk w :
  emptyStream (this w) = false →
  emptyStream (this (snd (transform fuel chunk w))) = false.
Proof.
  destruct fuel as [|n]; [done|]. intros _. apply transform_not_empty.
Qed.

Lemma write_stays_not_empty fuel chunks : ∀ w,
  emptyStream (this w) = false →
  emptyStream (this (snd (write_all fuel chunks w))) = false.
Proof.
  induction chunks as [|c cs IH]; intros w Hw; [done|].
  cbn [write]. unfold bind.
  pose proof (transform_stays_not_empty fuel c w Hw) as Hc.
  destruct (transform fuel c w) as [s w1]. cbn in Hc.
  destruct s; cbn; auto.
Qed.

(** C9. A first chunk of length zero is PUT as a whole object by
    [_transform], in one request with that empty body, and the stream is
    no longer empty; after any chunk at all, the end of the stream PUTs
    nothing. *)
Theorem zero_length_first_chunk fuel (chunk : Buffer) :
  1 ≤ fuel →
  0 < partSize →
  length chunk = 0 →
  let hashed := if enableSHA256 client then [] else [EvHash chunk] in
  let chunk_headers : Headers :=
    if enableSHA256 client
    then {[ "Content-Length" := HNum 0 ]}
    else <["Content-MD5" := HStr (base64 (md5 chunk))]>
           {[ "Content-Length" := HNum 0 ]} in
  let options :=
    {| method := "PUT";
       headers := Object_assign metaData chunk_headers;
       query := QueryEmpty;
       opt_bucketName := bucketName; opt_objectName := objectName |} in
  let answer := makeRequest client hashed options chunk in
  let w := snd (transform fuel chunk constructor) in
  emptyStream (this w) = false
  ∧ trace w =
      hashed ++
      EvMakeRequest options chunk answer ::
      match answer with
      | inl err => []
      | inr response =>
        [EvCallback (CbResult (result_of sanitizeETag getVersionId response))]
      end
  ∧ (∀ first rest s w',
       write_all fuel (first :: rest) constructor = (s, w') →
       emptyStream (this w') = false
       ∧ count is_uploadWhole (emitted flush w') = 0).
Proof.
  intros Hf Hp Hl.
  assert (Hs : (length chunk <? partSize) = true) by (apply Nat.ltb_lt; lia).
  destruct fuel as [|n]; [lia|]. clear Hf.
  cbn zeta. split; [apply transform_not_empty|]. split.
  - cbn [_transform]. unfold constructor. unfold_M. cbn. rewrite Hs, Hl.
    destruct (enableSHA256 client) eqn:Hsha; cbn.
    all: match goal with
         | |- context [makeRequest client ?t ?o ?c] =>
           destruct (makeRequest client t o c) as [err|response] eqn:Ha
         end; cbn; done.
  - intros first rest s w' Hw.
    assert (He : emptyStream (this w') = false).
    { replace w' with (snd (write_all (S n) (first :: rest) constructor))
        by (by rewrite Hw).
      cbn [write]. unfold bind.
      pose proof (transform_not_empty n first constructor) as Hc.
      destruct (transform (S n) first constructor) as [s1 w1]. cbn in Hc.
      destruct s1; cbn; try done. by apply write_stays_not_empty. }
    split; [done|]. by apply flush_not_empty.
Qed.


(** ** Runs *)

Lemma write_app fuel before : ∀ after w w1,
  write_all fuel before w = (Done, w1) →
  write_all fuel (before ++ after) w = write_all fuel after w1.
Proof.
  induction before as [|c before IH]; intros after w w1 Hw.
  - cbn in Hw. unfold ret in Hw. by simplify_eq.
  - cbn [write app] in *. unfold bind in *.
    destruct (transform fuel c w) as [s w2]. destruct s; try done.
    by apply IH.
Qed.

Lemma write_stops fuel chunks : ∀ w s w',
  write_all fuel chunks w = (s, w') →
  s ≠ Done →
  ∃ before chunk after w1,
    chunks = before ++ chunk :: after
    ∧ write_all fuel before w = (Done, w1)
    ∧ transform fuel chunk w1 = (s, w').
Proof.
  induction chunks as [|c chunks IH]; intros w s w' Hw Hs.
  - cbn in Hw. unfold ret in Hw. by simplify_eq.
  - cbn [write] in Hw. unfold bind in Hw.
    destruct (transform fuel c w) as [s1 w1] eqn:Hc.
    destruct s1; cbn in Hw; unfold ret in Hw.
    + destruct (IH _ _ _ Hw Hs) as (before & chunk & after & w2 & -> & Hb & Ht).
      exists (c :: before), chunk, after, w2. split; [done|]. split; [|done].
      cbn [write]. unfold bind. by rewrite Hc.
    + simplify_eq. by exists [], c, chunks, w.
    + simplify_eq. by exists [], c, chunks, w.
    + simplify_eq. by exists [], c, chunks, w.
Qed.

Lemma write_invariant (I : list Buffer → World → Prop) fuel :
  (∀ consumed chunk w w',
     I consumed w → transform fuel chunk w = (Done, w') →
     I (consumed ++ [chunk]) w') →
  ∀ chunks consumed w w',
    I consumed w → write_all fuel chunks w = (Done, w') →
    I (consumed ++ chunks) w'.
Proof.
  intros Hstep. induction chunks as [|c chunks IH]; intros consumed w w' Hi Hw.
  - cbn in Hw. unfold ret in Hw. simplify_eq. by rewrite app_nil_r.
  - cbn [write] in Hw. unfold bind in Hw.
    destruct (transform fuel c w) as [s1 w1] eqn:Hc.
    destruct s1; try done.
    rewrite (assoc_L _ consumed [c] chunks : consumed ++ c :: chunks = (consumed ++ [c]) ++ chunks).
    eapply IH; [|done]. by eapply Hstep.
Qed.

Lemma upload_unfold fuel chunks :
  upload_all fuel chunks =
  match write_all fuel chunks constructor with
  | (Done, w) => let (s, w') := flush w in snd (settle s w')
  | (s, w) => snd (settle s w)
  end.
Proof.
  unfold upload, pipe, bind.
  destruct (write_all fuel chunks constructor) as [s w].
  destruct s; try done. by destruct (flush w).
Qed.

(** Two calls of [_transform] for a chunk are all there can be: a run with
    fuel 2 or more never runs out of it, and is the run with fuel 2. *)
Lemma write_total fuel chunks : ∀ w,
  2 ≤ fuel → fst (write_all fuel chunks w) ≠ OutOfFuel.
Proof.
  induction chunks as [|c chunks IH]; intros w Hf; [done|].
  cbn [write]. unfold bind.
  pose proof (transform_total fuel c w Hf) as Hc.
  destruct (transform fuel c w) as [s w1]. cbn in Hc.
  destruct s; try done. by apply IH.
Qed.

Lemma write_fuel fuel chunks : ∀ w,
  2 ≤ fuel → write_all fuel chunks w = write_all 2 chunks w.
Proof.
  intros w Hf. destruct fuel as [|[|n]]; try lia. clear Hf. revert w.
  induction chunks as [|c chunks IH]; intros w; [done|].
  cbn [write]. unfold bind. rewrite transform_fuel.
  destruct (transform 2 c w) as [s w1]. destruct s; try done.
Qed.

Lemma upload_fuel fuel chunks :
  2 ≤ fuel → upload_all fuel chunks = upload_all 2 chunks.
Proof. intros Hf. by rewrite !upload_unfold, write_fuel. Qed.

Lemma upload_total fuel chunks :
  2 ≤ fuel → fst (pipe_all fuel chunks constructor) ≠ OutOfFuel.
Proof.
  intros Hf. unfold pipe, bind.
  pose proof (write_total fuel chunks constructor Hf) as Hw.
  destruct (write_all fuel chunks constructor) as [s w]. cbn in Hw.
  destruct s; try done.
  destruct w as [u t]. flush_paths; done.
Qed.

(** ** The parts are numbered in the order of the chunks *)

Lemma parts_of_snoc (consumed : list Buffer) (chunk : Buffer) :
  parts_of partSize (consumed ++ [chunk]) =
  match parts_of partSize consumed with
  | [] => if short partSize chunk then [] else [chunk]
  | parts => parts ++ [chunk]
  end.
Proof.
  induction consumed as [|c consumed IH]; [done|].
  cbn [parts_of app]. destruct (short partSize c); [done|].
  done.
Qed.

Lemma carries_snoc parts chunk e : carries parts e → carries (parts ++ [chunk]) e.
Proof.
  destruct e; try done. cbn. destruct (query options); [done|].
  intros [Hk Hl]. split; [done|]. by apply lookup_app_l_Some.
Qed.



Lemma numbered_single consumed (chunk : Buffer) w :
  numbered partSize consumed w →
  (partNumber (this w) =? 1) && (length chunk <? partSize) = true →
  parts_of partSize (consumed ++ [chunk]) = parts_of partSize consumed.
Proof.
  intros (Hn & _) [Hp Hs]%andb_prop. apply Nat.eqb_eq in Hp.
  rewrite parts_of_snoc. unfold short. rewrite Hs.
  destruct (parts_of partSize consumed); [done|]. cbn in Hn. lia.
Qed.

Lemma numbered_part consumed (chunk : Buffer) w :
  numbered partSize consumed w →
  (partNumber (this w) =? 1) && (length chunk <? partSize) = false →
  parts_of partSize (consumed ++ [chunk]) = parts_of partSize consumed ++ [chunk].
Proof.
  intros (Hn & _) Hb. rewrite parts_of_snoc. unfold short.
  destruct (parts_of partSize consumed); [|done].
  cbn in Hn. rewrite Hn in Hb. cbn in Hb. by rewrite Hb.
Qed.

Lemma numbered_same consumed consumed' u t u' new :
  numbered partSize consumed {| this := u; trace := t |} →
  parts_of partSize consumed' = parts_of partSize consumed →
  partNumber u' = partNumber u →
  etags u' = etags u →
  Forall (carries (parts_of partSize consumed)) new →
  numbered partSize consumed' {| this := u'; trace := t ++ new |}.
Proof.
  intros (Hn & He & Hc) Hp Hn' He' Hnew. unfold numbered. cbn in *.
  rewrite Hp, Hn', He'. repeat split; try done. by apply Forall_app.
Qed.

(** A chunk that becomes a part, once the session is there. *)
Lemma numbered_step consumed chunk u t u' new :
  numbered partSize consumed {| this := u; trace := t |} →
  parts_of partSize (consumed ++ [chunk]) = parts_of partSize consumed ++ [chunk] →
  partNumber u' = S (partNumber u) →
  map part (etags u') = map part (etags u) ++ [partNumber u] →
  Forall (carries (parts_of partSize consumed ++ [chunk])) new →
  numbered partSize (consumed ++ [chunk]) {| this := u'; trace := t ++ new |}.
Proof.
  intros (Hn & He & Hc) Hp Hn' He' Hnew. unfold numbered. cbn in *.
  rewrite Hp, length_app, Nat.add_1_r. split; [lia|]. split.
  - rewrite He', He, seq_S. cbn. by rewrite Hn.
  - apply Forall_app. split; [|done].
    eapply Forall_impl; [done|]. intros e. apply carries_snoc.
Qed.

Lemma carries_new consumed chunk u t options a uid :
  numbered partSize consumed {| this := u; trace := t |} →
  query options = QueryPart (partNumber u) uid →
  carries (parts_of partSize consumed ++ [chunk]) (EvMakeRequest options chunk a).
Proof.
  intros (Hn & _) Hq. cbn in *. rewrite Hq, Hn. split; [lia|].
  rewrite Nat.sub_1_r. cbn. by rewrite lookup_app_r, Nat.sub_diag.
Qed.

Ltac carried :=
  repeat first
    [ apply Forall_nil_2
    | apply Forall_cons_2; [first [exact I | by eapply carries_new]|] ].

Lemma transform_numbered fuel : ∀ consumed chunk w w',
  numbered partSize consumed w →
  transform fuel chunk w = (Done, w') →
  numbered partSize (consumed ++ [chunk]) w'.
Proof.
  induction fuel as [|n IH]; intros consumed chunk w w' Hw; [done|].
  pose proof (numbered_single consumed chunk w Hw) as Hsingle.
  pose proof (numbered_part consumed chunk w Hw) as Hpart.
  destruct w as [u t].
  transform_paths; intros Heq; simplify_eq; rewrite <- ?app_assoc; cbn [app].
  all: try (eapply IH; [|done]; rewrite <- ?app_assoc; cbn [app]).
  all: try (eapply numbered_same; [done|by auto|done|done|carried]).
  all: try (eapply numbered_step; [done|by auto|done| |carried]; cbn;
            by rewrite map_app).
Qed.

(** ** What a chunk adds to the trace *)

Ltac emitted_paths :=
  unfold emitted; transform_paths;
  rewrite ?transform_trace; cbn [trace];
  rewrite <- ?app_assoc, ?drop_app_length; cbn [app].

Lemma drop_all_trace (t : list Event) : drop (length t) t = [].
Proof. apply drop_all. Qed.

Ltac of_chunk_events :=
  repeat first
    [ apply Forall_nil_2
    | apply Forall_cons_2; [first [exact I | reflexivity]|] ].

Lemma transform_of_chunk fuel : ∀ chunk w,
  Forall (of_chunk chunk) (emitted (transform fuel chunk) w).
Proof.
  induction fuel as [|n IH]; intros chunk w.
  { unfold emitted. cbn. rewrite drop_all_trace. apply Forall_nil_2. }
  emitted_paths; rewrite ?drop_all_trace.
  all: by of_chunk_events.
Qed.

Lemma write_Forall (P : Event → Prop) fuel :
  (∀ chunk w, Forall P (emitted (transform fuel chunk) w)) →
  ∀ chunks w, Forall P (trace w) → Forall P (trace (snd (write_all fuel chunks w))).
Proof.
  intros Hstep. induction chunks as [|c chunks IH]; intros w Hw; [done|].
  cbn [write]. unfold bind.
  pose proof (transform_trace fuel c w) as Ht.
  pose proof (Hstep c w) as Hc.
  destruct (transform fuel c w) as [s w1]. cbn in Ht.
  assert (Forall P (trace w1)) by (rewrite Ht; by apply Forall_app).
  destruct s; cbn; auto.
Qed.

Lemma write_no_complete fuel chunks :
  Forall (λ e, is_complete e = false)
         (trace (snd (write_all fuel chunks constructor))).
Proof.
  apply write_Forall; [|apply Forall_nil_2].
  intros chunk w. eapply Forall_impl; [apply transform_of_chunk|].
  intros e. by destruct e.
Qed.

Lemma write_numbered fuel chunks w :
  write_all fuel chunks constructor = (Done, w) →
  numbered partSize chunks w.
Proof.
  intros Hw. apply (write_invariant (numbered partSize) fuel) with (consumed := []) in Hw.
  - done.
  - intros. by eapply transform_numbered.
  - unfold numbered, constructor. cbn. by repeat split.
Qed.

(** C2. When the multipart upload is completed, the parts handed to
    [completeMultipartUpload] are the etags of the object, numbered 1, 2,
    3, ... in that order, one for each chunk from the first that was not
    short on, and each request for a part carried the chunk of that
    number. *)
Theorem completed_parts_numbered_in_order
    fuel chunks bucket object uploadId parts answer :
  let final := upload_all fuel chunks in
  In (EvCompleteMultipartUpload bucket object uploadId parts answer)
     (trace final) →
  parts = etags (this final)
  ∧ map part parts = seq 1 (length parts)
  ∧ partNumber (this final) = S (length parts)
  ∧ length parts = length (parts_of partSize chunks)
  ∧ Forall (carries (parts_of partSize chunks)) (trace final).
Proof.
  cbn zeta. rewrite upload_unfold.
  pose proof (write_no_complete fuel chunks) as Hnc.
  destruct (write_all fuel chunks constructor) as [s w] eqn:Hw. cbn in Hnc.
  assert (Hold : ∀ e, In e (trace w) → is_complete e = false).
  { by apply List.Forall_forall. }
  destruct s.
  - apply write_numbered in Hw. destruct Hw as (Hn & He & Hc).
    destruct w as [u t]. flush_paths; rewrite ?in_app_iff; cbn.
    all: intros Hin; try (apply Hold in Hin; done).
    all: try (destruct Hin as [[Hin|Hin]|Hin]; [by apply Hold in Hin|..];
              repeat destruct Hin as [Hin|Hin]; done).
    all: destruct Hin as [[Hin|Hin]|Hin]; [by apply Hold in Hin|..].
    all: repeat destruct Hin as [Hin|Hin]; simplify_eq; try done.
    all: cbn in *.
    all: assert (Hl : length (etags u) = length (parts_of partSize chunks))
           by (by rewrite <- (length_map part), He, length_seq).
    all: rewrite Hl; repeat split; try done.
    all: rewrite ?Forall_app; repeat split; try done; of_chunk_events.
  - unfold_M. cbn. rewrite in_app_iff. cbn.
    intros [Hin|[Hin|[]]]; [by apply Hold in Hin|done].
  - unfold_M. cbn. intros Hin. apply Hold in Hin. done.
  - unfold_M. cbn. intros Hin. apply Hold in Hin. done.
Qed.

(** ** One session *)

Lemma session_inv_bound w : session_inv w → session_bound w.
Proof.
  unfold session_inv, session_bound. cbn zeta.
  destruct (id (this w)).
  - intros (Hf & Hc). repeat split; [lia|lia|done].
  - intros (Hf & Hi & Hl). repeat split; [lia|lia|]. by intros [? ?].
Qed.

Ltac counting :=
  unfold session_inv, session_bound in *; cbn [this trace id] in *;
  repeat match goal with
         | H : id ?u = _, H' : context [id ?u] |- _ => rewrite H in H'
         | H : id ?u = _ |- context [id ?u] => rewrite H
         end;
  try match goal with
      | |- context [id ?u] => destruct (id u)
      end;
  count_events;
  intuition (try done; try lia).

Lemma transform_session fuel : ∀ chunk w,
  session_inv w →
  (fst (transform fuel chunk w) = Done → session_inv (snd (transform fuel chunk w)))
  ∧ session_bound (snd (transform fuel chunk w)).
Proof.
  induction fuel as [|n IH]; intros chunk w Hw.
  { split; [done|]. by apply session_inv_bound. }
  destruct w as [u t].
  transform_paths.
  all: try (apply IH).
  all: counting.
Qed.

Lemma transform_unbound fuel : ∀ chunk w w',
  (id (this w) = None → partNumber (this w) = 1) →
  transform fuel chunk w = (Done, w') →
  id (this w') = None → partNumber (this w') = 1.
Proof.
  induction fuel as [|n IH]; intros chunk w w' Hw; [done|].
  destruct w as [u t]. cbn in Hw.
  transform_paths; intros Heq; simplify_eq; cbn; try done; auto.
  all: eapply IH; [|done]; done.
Qed.

Lemma transform_ready_no_find fuel : ∀ chunk w i,
  id (this w) = Some i →
  count is_findUploadId (emitted (transform fuel chunk) w) = 0.
Proof.
  destruct fuel as [|n]; intros chunk w i Hi.
  { unfold emitted. cbn. by rewrite drop_all_trace. }
  emitted_paths; rewrite ?drop_all_trace; try done; congruence.
Qed.

Lemma transform_find fuel chunk w :
  0 < count is_findUploadId (emitted (transform fuel chunk) w) →
  id (this w) = None
  ∧ (partNumber (this w) =? 1) && (length chunk <? partSize) = false.
Proof.
  destruct fuel as [|n].
  { unfold emitted. cbn. rewrite drop_all_trace, count_nil. lia. }
  emitted_paths; rewrite ?drop_all_trace; count_events; try done; try lia.
Qed.

Lemma parts_of_nil (chunks : list Buffer) :
  parts_of partSize chunks = [] → Forall (λ c, short partSize c = true) chunks.
Proof.
  induction chunks as [|c chunks IH]; [by intros; apply Forall_nil_2|].
  cbn. destruct (short partSize c) eqn:Hc; [|done].
  intros H. apply Forall_cons_2; auto.
Qed.

Lemma write_unbound fuel chunks w :
  write_all fuel chunks constructor = (Done, w) →
  id (this w) = None → partNumber (this w) = 1.
Proof.
  intros Hw.
  refine (write_invariant
            (λ _ w, id (this w) = None → partNumber (this w) = 1)
            fuel _ chunks [] constructor w _ Hw); [|done].
  intros _ chunk w1 w2. apply transform_unbound.
Qed.

Lemma write_session_inv fuel chunks w :
  write_all fuel chunks constructor = (Done, w) → session_inv w.
Proof.
  intros Hw.
  refine (write_invariant (λ _ w, session_inv w)
            fuel _ chunks [] constructor w _ Hw); [|done].
  intros _ chunk w1 w2 H1 Ht.
  destruct (transform_session fuel chunk w1 H1) as [Hd _].
  rewrite Ht in Hd. by apply Hd.
Qed.

Lemma write_session_bound fuel chunks :
  session_bound (snd (write_all fuel chunks constructor)).
Proof.
  destruct (write_all fuel chunks constructor) as [s w] eqn:Hw.
  assert (s = Done ∨ s ≠ Done) as [->|Hs] by (destruct s; auto).
  - apply session_inv_bound. by eapply write_session_inv.
  - destruct (write_stops _ _ _ _ _ Hw Hs)
      as (before & chunk & after & w1 & -> & Hb & Ht).
    apply write_session_inv in Hb.
    destruct (transform_session fuel chunk w1 Hb) as [_ Hbound].
    by rewrite Ht in Hbound.
Qed.

Lemma write_id fuel chunks : ∀ w i,
  id (this w) = Some i →
  id (this (snd (write_all fuel chunks w))) = Some i.
Proof.
  induction chunks as [|c chunks IH]; intros w i Hi; [done|].
  cbn [write]. unfold bind.
  destruct (transform_id fuel c w i Hi) as [Hc _].
  destruct (transform fuel c w) as [s w1]. cbn in Hc.
  destruct s; cbn; auto.
Qed.

Lemma settle_this s w : this (snd (settle s w)) = this w.
Proof. by destruct s. Qed.

Lemma upload_this fuel chunks :
  this (upload_all fuel chunks) = this (snd (write_all fuel chunks constructor)).
Proof.
  rewrite upload_unfold.
  destruct (write_all fuel chunks constructor) as [s w].
  destruct s; try apply settle_this.
  pose proof (flush_this w) as Hf. destruct (flush w) as [s' w']. cbn in Hf.
  change (this (snd (settle s' w')) = this w).
  rewrite <- Hf. apply settle_this.
Qed.

Lemma upload_session_bound fuel chunks : session_bound (upload_all fuel chunks).
Proof.
  pose proof (write_session_bound fuel chunks) as Hb.
  unfold session_bound. rewrite upload_this.
  rewrite upload_unfold.
  destruct (write_all fuel chunks constructor) as [s w]. cbn in Hb.
  destruct w as [u t].
  destruct s; [flush_paths|unfold_M; cbn..]; counting.
Qed.

(** C5, amended. In every run the session id, once set, is never set
    again; the session is searched for at most once, by the first chunk
    that is not short, all chunks before it being short; at most one of
    the creation of a session and the adoption of a pending one occurs,
    and exactly one of them in every run that ends with a session id. *)
Theorem one_session_per_run fuel chunks :
  let final := upload_all fuel chunks in
  let t := trace final in
  (∀ chunk w i,
     id (this w) = Some i →
     id (this (snd (transform fuel chunk w))) = Some i)
  ∧ (∀ before after w i,
       chunks = before ++ after →
       write_all fuel before constructor = (Done, w) →
       id (this w) = Some i →
       id (this final) = Some i)
  ∧ count is_findUploadId t ≤ 1
  ∧ count is_initiate t + count is_listParts t ≤ 1
  ∧ (is_Some (id (this final)) →
     count is_initiate t + count is_listParts t = 1)
  ∧ (∀ before chunk after w,
       chunks = before ++ chunk :: after →
       write_all fuel before constructor = (Done, w) →
       0 < count is_findUploadId (emitted (transform fuel chunk) w) →
       Forall (λ c, short partSize c = true) before
       ∧ short partSize chunk = false).
Proof.
  cbn zeta. split; [|split].
  - intros chunk w i Hi. by apply transform_id.
  - intros before after w i -> Hw Hi.
    rewrite upload_this, (write_app _ _ _ _ _ Hw). by apply write_id.
  - destruct (upload_session_bound fuel chunks) as (Hf & Hc & Hs).
    split; [done|]. split; [done|]. split; [done|].
    intros before chunk after w -> Hw [Hi Hb]%transform_find.
    apply (write_unbound _ _ _ Hw) in Hi. split.
    + pose proof (write_numbered _ _ _ Hw) as (Hn & _).
      apply parts_of_nil. rewrite Hi in Hn.
      destruct (parts_of partSize before); [done|]. cbn in Hn. lia.
    + rewrite Hi in Hb. by cbn in Hb.
Qed.

(** ** A failed call stops the upload *)

Lemma clean_app t new : clean t → clean new → clean (t ++ new).
Proof. intros. by apply Forall_app. Qed.

Ltac clean_events :=
  repeat first
    [ apply Forall_nil_2
    | apply Forall_cons_2; [by split|] ].

Ltac signalling :=
  lazymatch goal with
  | |- clean _ =>
    rewrite <- ?app_assoc; cbn [app]; apply clean_app; [done|clean_events]
  | |- ∃ h e, _ = h ++ [e] ∧ _ =>
    eexists _, _; split; [reflexivity|]; split; [|done];
    rewrite <- ?app_assoc; cbn [app];
    first [done | apply clean_app; [done|clean_events]]
  | |- halted _ =>
    eexists _, _, _; split; [by rewrite <- (app_assoc _ [_] [_])|];
    split; [|done];
    rewrite <- ?app_assoc; cbn [app];
    first [done | apply clean_app; [done|clean_events]]
  end.

Lemma transform_signalled fuel : ∀ chunk w,
  clean (trace w) →
  signalled (fst (transform fuel chunk w)) (trace (snd (transform fuel chunk w))).
Proof.
  induction fuel as [|n IH]; intros chunk w Hw; [done|].
  destruct w as [u t]. cbn in Hw.
  transform_paths.
  all: try (apply IH; cbn [trace]).
  all: try signalling.
Qed.

Lemma write_signalled fuel chunks : ∀ w,
  clean (trace w) →
  signalled (fst (write_all fuel chunks w)) (trace (snd (write_all fuel chunks w))).
Proof.
  induction chunks as [|c chunks IH]; intros w Hw; [done|].
  cbn [write]. unfold bind.
  pose proof (transform_signalled fuel c w Hw) as Hc.
  destruct (transform fuel c w) as [s w1]. cbn in Hc.
  destruct s; try done. by apply IH.
Qed.

Lemma flush_signalled w :
  clean (trace w) →
  match fst (flush w) with
  | Failed err =>
    ∃ h e, trace (snd (flush w)) = h ++ [e] ∧ clean h ∧ failure e = Some err
  | _ => clean (trace (snd (flush w)))
  end.
Proof.
  intros Hw. destruct w as [u t]. cbn in Hw.
  flush_paths; try done; signalling.
Qed.

Lemma settle_halted s w :
  signalled s (trace w) → s ≠ Pending →
  clean (trace (snd (settle s w))) ∨ halted (trace (snd (settle s w))).
Proof.
  destruct s as [|err| |]; cbn; intros Hs Hp; try done; auto.
  right. destruct Hs as (h & e & -> & Hh & He).
  exists h, e, err. by rewrite <- app_assoc.
Qed.

Lemma upload_clean_or_halted fuel chunks :
  clean (trace (upload_all fuel chunks)) ∨ halted (trace (upload_all fuel chunks)).
Proof.
  rewrite upload_unfold.
  pose proof (write_signalled fuel chunks constructor (Forall_nil_2 _)) as Hw.
  destruct (write_all fuel chunks constructor) as [s w]. cbn in Hw.
  destruct s; try (by apply settle_halted); [|by right].
  pose proof (flush_signalled w Hw) as Hf.
  destruct (flush w) as [s' w']. cbn in Hf.
  destruct s'; try (by left); by apply settle_halted.
Qed.

Lemma split_at_last_two {A} (h0 : list A) : ∀ h e rest e0 c,
  h ++ e :: rest = h0 ++ [e0; c] →
  In e h0 ∨ (h = h0 ∧ e = e0 ∧ rest = [c]) ∨ (h = h0 ++ [e0] ∧ e = c ∧ rest = []).
Proof.
  induction h0 as [|x h0 IH]; intros h e rest e0 c Heq.
  - destruct h as [|y h]; cbn in Heq.
    { injection Heq as -> ->. by auto. }
    injection Heq as -> Heq.
    destruct h as [|z h]; cbn in Heq.
    { injection Heq as -> ->. by auto. }
    injection Heq as -> Heq. by destruct h.
  - destruct h as [|y h]; cbn in Heq.
    { injection Heq as -> ->. left. by left. }
    injection Heq as -> Heq.
    destruct (IH _ _ _ _ _ Heq) as [Hin|[(-> & -> & ->)|(-> & -> & ->)]].
    + left. by right.
    + by auto.
    + by auto.
Qed.

(** C4. Once a call of the client has failed, nothing follows it in the
    trace but the error handed to the caller: no request for a part, no
    completion, no result; and the caller gets an error once in the whole
    run. *)
Theorem failed_call_stops_the_upload fuel chunks h e rest err :
  trace (upload_all fuel chunks) = h ++ e :: rest →
  failure e = Some err →
  rest = [EvCallback (CbError err)]
  ∧ count is_error (trace (upload_all fuel chunks)) = 1
  ∧ count is_uploadPart rest = 0
  ∧ count is_complete rest = 0
  ∧ count is_result rest = 0.
Proof.
  intros Ht He.
  destruct (upload_clean_or_halted fuel chunks) as [Hc|(h0 & e0 & err0 & H0 & Hh & He0)].
  - exfalso. rewrite Ht in Hc. apply Forall_app in Hc as [_ Hc].
    apply Forall_cons_1 in Hc as [[Hc _] _]. congruence.
  - assert (Hsplit := Ht). rewrite H0 in Hsplit. symmetry in Hsplit.
    apply split_at_last_two in Hsplit as [Hin|[(-> & -> & ->)|(-> & -> & ->)]].
    + exfalso. unfold clean in Hh. rewrite List.Forall_forall in Hh.
      apply Hh in Hin as [Hin _]. congruence.
    + assert (err0 = err) as -> by congruence.
      split; [done|]. split; [|done].
      rewrite H0, count_app, !count_cons, count_nil.
      assert (count is_error h0 = 0) as ->.
      { apply count_zero. unfold clean in Hh. rewrite List.Forall_forall in Hh.
        intros e' He'. by apply Hh in He' as [_ ?]. }
      destruct e0; cbn in *; try done.
    + done.
Qed.

(** ** Resuming: a part is skipped or uploaded once *)

Lemma emitted_nothing {A} (a : A) w : emitted (ret a) w = [].
Proof. unfold emitted, ret. cbn. apply drop_all. Qed.

Lemma transform_resume fuel : ∀ chunk w registry,
  let w' := snd (transform fuel chunk w) in
  let k := partNumber (this w) in
  partNumber (this w') = S k →
  oldParts (this w') = Some registry →
  (already_uploaded registry k (hex (md5 chunk)) →
   count is_uploadPart (emitted (transform fuel chunk) w) = 0
   ∧ ∃ old, registry !! k = Some old
            ∧ etags (this w') = etags (this w) ++ [{| part := k; etag := etag old |}])
  ∧ (¬ already_uploaded registry k (hex (md5 chunk)) →
     count (is_uploadPart_of k) (emitted (transform fuel chunk) w) = 1
     ∧ count is_uploadPart (emitted (transform fuel chunk) w) = 1).
Proof.
  induction fuel as [|n IH]; intros chunk w registry; cbn zeta.
  { cbn. lia. }
  destruct w as [u t].
  emitted_paths; rewrite ?drop_all_trace; cbn [this partNumber oldParts etags].
  all: try lia.
  all: intros Hp Hr.
  all: try match goal with
           | |- context [transform _ ?c ?w1] =>
             destruct (IH c w1 registry Hp Hr) as [IHa IHb]; cbn in IHa, IHb;
             (split; intros Ha;
              [destruct (IHa Ha) as [? ?]|destruct (IHb Ha) as [? ?]]);
             count_events; split; first [done | lia]
           end.
  all: simplify_eq; (split; intros Ha).
  all: try (destruct Ha as (old & Hold & Hetag); simplify_eq; congruence).
  all: try (exfalso; apply Ha; by eexists).
  all: count_events; rewrite ?Nat.eqb_refl; try done.
  all: split; [done|]; by eexists.
Qed.


Lemma transform_count_other fuel : ∀ chunk w j,
  j ≠ partNumber (this w) →
  count (is_uploadPart_of j) (emitted (transform fuel chunk) w) = 0.
Proof.
  induction fuel as [|n IH]; intros chunk w j Hj.
  { cbn [_transform]. by rewrite emitted_nothing. }
  destruct w as [u t]. cbn in Hj.
  emitted_paths; rewrite ?drop_all_trace; count_events; rewrite ?IH; try done.
  all: by destruct (Nat.eqb_spec (partNumber u) j).
Qed.

Lemma transform_count_unnumbered fuel : ∀ chunk w j,
  partNumber (this (snd (transform fuel chunk w))) = partNumber (this w) →
  count (is_uploadPart_of j) (emitted (transform fuel chunk) w) = 0.
Proof.
  induction fuel as [|n IH]; intros chunk w j.
  { cbn [_transform]. by rewrite emitted_nothing. }
  destruct w as [u t].
  emitted_paths; rewrite ?drop_all_trace; cbn [this partNumber].
  all: try lia.
  all: intros Hp; count_events; rewrite ?IH; done.
Qed.

Lemma transform_count f fuel chunk w :
  count f (trace (snd (transform fuel chunk w))) =
  count f (trace w) + count f (emitted (transform fuel chunk) w).
Proof. by rewrite transform_trace, count_app. Qed.

(** No part was requested yet under the number of the next part or a
    later one. *)
Lemma transform_fresh_parts fuel chunk w :
  (∀ j, partNumber (this w) ≤ j → count (is_uploadPart_of j) (trace w) = 0) →
  ∀ j, partNumber (this (snd (transform fuel chunk w))) ≤ j →
       count (is_uploadPart_of j) (trace (snd (transform fuel chunk w))) = 0.
Proof.
  intros Hw j Hj. pose proof (transform_partNumber fuel chunk w) as Hp.
  rewrite transform_count, Hw by lia.
  destruct (decide (partNumber (this (snd (transform fuel chunk w)))
                    = partNumber (this w))) as [Heq|Hne].
  - by rewrite transform_count_unnumbered.
  - rewrite transform_count_other; [done|lia].
Qed.

Lemma write_fresh_parts fuel chunks w :
  write_all fuel chunks constructor = (Done, w) →
  count (is_uploadPart_of (partNumber (this w))) (trace w) = 0.
Proof.
  intros Hw.
  refine (write_invariant
            (λ _ w, ∀ j, partNumber (this w) ≤ j →
                         count (is_uploadPart_of j) (trace w) = 0)
            fuel _ chunks [] constructor w _ Hw _ _); [|done|done].
  intros _ chunk w1 w2 H1 Ht j.
  pose proof (transform_fresh_parts fuel chunk w1 H1 j) as H2.
  by rewrite Ht in H2.
Qed.

Lemma write_count_below fuel chunks : ∀ w j,
  j < partNumber (this w) →
  count (is_uploadPart_of j) (trace (snd (write_all fuel chunks w))) =
  count (is_uploadPart_of j) (trace w).
Proof.
  induction chunks as [|c chunks IH]; intros w j Hj; [done|].
  cbn [write]. unfold bind.
  pose proof (transform_partNumber fuel c w) as Hp.
  pose proof (transform_count (is_uploadPart_of j) fuel c w) as Hc.
  rewrite transform_count_other in Hc by lia.
  destruct (transform fuel c w) as [s w1]. cbn in Hp, Hc.
  destruct s; cbn; try lia. rewrite IH; lia.
Qed.

Lemma upload_count_parts fuel chunks j :
  count (is_uploadPart_of j) (trace (upload_all fuel chunks)) =
  count (is_uploadPart_of j) (trace (snd (write_all fuel chunks constructor))).
Proof.
  rewrite upload_unfold.
  destruct (write_all fuel chunks constructor) as [s w]. destruct w as [u t].
  destruct s; [flush_paths|unfold_M; cbn..]; count_events; lia.
Qed.

(** C1. A chunk that gets a part number [k] while a registry of old parts
    exists: if the registry records for [k] the hex digest of the chunk,
    no request for a part is made for the chunk, none for part [k] in the
    whole run, and [{part: k, etag: recorded etag}] is appended to the
    etags; if it has no record for [k] or another digest, the part [k] is
    requested once in the whole run. *)
Theorem resumed_part_skipped_or_uploaded_once
    fuel before chunk after w registry :
  write_all fuel before constructor = (Done, w) →
  let w' := snd (transform fuel chunk w) in
  let k := partNumber (this w) in
  let final := upload_all fuel (before ++ chunk :: after) in
  partNumber (this w') = S k →
  oldParts (this w') = Some registry →
  (already_uploaded registry k (hex (md5 chunk)) →
   count is_uploadPart (emitted (transform fuel chunk) w) = 0
   ∧ count (is_uploadPart_of k) (trace final) = 0
   ∧ ∃ old, registry !! k = Some old
            ∧ etag old = Some (hex (md5 chunk))
            ∧ etags (this w') =
              etags (this w) ++ [{| part := k; etag := etag old |}])
  ∧ (¬ already_uploaded registry k (hex (md5 chunk)) →
     count is_uploadPart (emitted (transform fuel chunk) w) = 1
     ∧ count (is_uploadPart_of k) (trace final) = 1).
Proof.
  intros Hw. cbn zeta. intros Hp Hr.
  assert (Hfinal :
    count (is_uploadPart_of (partNumber (this w)))
          (trace (upload_all fuel (before ++ chunk :: after))) =
    count (is_uploadPart_of (partNumber (this w)))
          (emitted (transform fuel chunk) w)).
  { rewrite upload_count_parts, (write_app _ _ _ _ _ Hw).
    cbn [write]. unfold bind.
    pose proof (transform_count (is_uploadPart_of (partNumber (this w)))
                                fuel chunk w) as Hc.
    rewrite (write_fresh_parts _ _ _ Hw) in Hc.
    destruct (transform fuel chunk w) as [s w1]. cbn in Hp, Hc.
    destruct s; cbn; try lia. rewrite write_count_below; lia. }
  destruct (transform_resume fuel chunk w registry Hp Hr) as [Hskip Hup].
  split; intros Ha.
  - destruct (Hskip Ha) as (Hnone & old & Hold & Hetags).
    split; [done|]. split.
    + rewrite Hfinal. apply count_zero. intros e He.
      rewrite count_zero in Hnone. apply Hnone in He.
      destruct e; try done. cbn in *. by destruct (query options).
    + exists old. split; [done|]. split; [|done].
      destruct Ha as (old' & Hold' & Hd). congruence.
  - destruct (Hup Ha) as [Hk Hone]. split; [done|]. by rewrite Hfinal.
Qed.

(** ** The etag of an uploaded part *)

Ltac in_events H :=
  repeat (rewrite ?in_app_iff in H; cbn [In] in H);
  repeat match type of H with
         | _ ∨ _ => destruct H as [H|H]
         | False => destruct H
         end.

Lemma transform_part_etag fuel : ∀ chunk w options payload response k uploadId,
  In (EvMakeRequest options payload (inr response))
     (emitted (transform fuel chunk) w) →
  query options = QueryPart k uploadId →
  etags (this (snd (transform fuel chunk w))) =
  etags (this w) ++ [{| part := k; etag := part_etag response |}].
Proof.
  induction fuel as [|n IH]; intros chunk w options payload response k uploadId.
  { cbn [_transform]. by rewrite emitted_nothing. }
  destruct w as [u t].
  emitted_paths; rewrite ?drop_all_trace; cbn [this etags].
  all: intros Hin Hq; in_events Hin; simplify_eq; cbn in Hq; simplify_eq.
  all: try done.
  all: by erewrite IH.
Qed.

(** C8, amended. What is appended to the etags for a part that was
    uploaded is the etag of the response with a double quote removed from
    its front if there is one, and then one from its end if there is one:
    a pair of quotes around the etag is removed, and so is a quote on one
    side only. *)
Theorem part_etag_quotes_removed
    fuel chunk w options payload response k uploadId :
  In (EvMakeRequest options payload (inr response))
     (emitted (transform fuel chunk) w) →
  query options = QueryPart k uploadId →
  etags (this (snd (transform fuel chunk w))) =
    etags (this w) ++ [{| part := k; etag := part_etag response |}]
  ∧ (∀ c s, response_headers response !! "etag" = Some (String c s) →
            part_etag response =
            Some (replace_trailing_quote (replace_leading_quote (String c s))))
  ∧ (∀ s, replace_trailing_quote
            (replace_leading_quote
               (String dquote (s +:+ String dquote EmptyString))) = s)
  ∧ (∀ s, replace_leading_quote (String dquote s) = s)
  ∧ (∀ s, replace_trailing_quote (s +:+ String dquote EmptyString) = s)
  ∧ (∀ c s, c ≠ dquote → ends_with_quote (String c s) = false →
            replace_trailing_quote (replace_leading_quote (String c s)) =
            String c s).
Proof.
  intros Hin Hq. split; [by eapply transform_part_etag|].
  split; [|split; [|split; [|split]]].
  - intros c s He. unfold part_etag. by rewrite He.
  - intros s. change (replace_leading_quote (String dquote ?x)) with x.
    apply replace_trailing_quote_snoc.
  - done.
  - apply replace_trailing_quote_snoc.
  - intros c s Hc He. rewrite replace_leading_quote_none by done.
    by apply replace_trailing_quote_none.
Qed.

(** ** Hashing *)

Lemma transform_hash_once chunk w :
  count is_hash (emitted (transform 1 chunk) w) ≤ 1.
Proof.
  destruct w as [u t].
  emitted_paths; rewrite ?drop_all_trace, ?emitted_nothing; count_events; lia.
Qed.

Lemma transform_hash_ready fuel chunk w :
  count is_findUploadId (emitted (transform fuel chunk) w) = 0 →
  count is_hash (emitted (transform fuel chunk) w) ≤ 1.
Proof.
  destruct fuel as [|n].
  { cbn [_transform]. rewrite emitted_nothing. count_events. lia. }
  destruct w as [u t].
  emitted_paths; rewrite ?drop_all_trace; count_events; lia.
Qed.

Lemma transform_hash_twice fuel chunk w :
  count is_hash (emitted (transform fuel chunk) w) ≤ 2.
Proof.
  destruct fuel as [|n].
  { cbn [_transform]. rewrite emitted_nothing. count_events. lia. }
  destruct w as [u t].
  emitted_paths; rewrite ?drop_all_trace; count_events; try lia.
  all: match goal with
       | |- context [emitted (transform ?m ?c) ?w1] =>
         pose proof (transform_hash_ready m c w1) as Hr;
         rewrite (transform_ready_no_find m c w1 _ eq_refl) in Hr
       end; lia.
Qed.

Lemma assign_override (meta h : Headers) k v :
  h !! k = Some v → Object_assign meta h !! k = Some v.
Proof. intros Hh. unfold Object_assign. by apply lookup_union_Some_l. Qed.

Lemma transform_content_md5 fuel : ∀ chunk w options payload answer,
  enableSHA256 client = false →
  In (EvMakeRequest options payload answer) (emitted (transform fuel chunk) w) →
  headers options !! "Content-MD5" = Some (HStr (base64 (md5 chunk))).
Proof.
  induction fuel as [|n IH]; intros chunk w options payload answer Hsha.
  { cbn [_transform]. by rewrite emitted_nothing. }
  destruct w as [u t].
  emitted_paths; rewrite ?drop_all_trace.
  all: try (rewrite Hsha in *; done).
  all: intros Hin; in_events Hin; simplify_eq; cbn [headers]; try done.
  all: try (by eapply IH).
  all: try (apply assign_override); by rewrite lookup_insert_eq.
Qed.

Lemma transform_lazy_hash fuel : ∀ chunk w,
  enableSHA256 client = true →
  let w' := snd (transform fuel chunk w) in
  let resumed :=
    partNumber (this w') = S (partNumber (this w))
    ∧ is_Some (oldParts (this w')) in
  (resumed → count is_hash (emitted (transform fuel chunk) w) = 1)
  ∧ (¬ resumed → count is_hash (emitted (transform fuel chunk) w) = 0).
Proof.
  induction fuel as [|n IH]; intros chunk w Hsha; cbn zeta.
  { cbn [_transform]. rewrite emitted_nothing. cbn. split; [lia|done]. }
  destruct w as [u t]. specialize (IH chunk).
  emitted_paths; rewrite ?drop_all_trace; cbn [this partNumber oldParts].
  all: try (rewrite Hsha in *; done).
  all: try match goal with
           | |- context [emitted (transform _ _) ?w1] =>
             destruct (IH w1 Hsha) as [IHa IHb];
             cbn [this partNumber oldParts] in IHa, IHb
           end.
  all: count_events; (split; intros Hd).
  all: try (destruct Hd as [? [? ?]]; done).
  all: try (destruct Hd as [? [? ?]]; lia).
  all: try (exfalso; apply Hd; split; [done|by eexists]).
  all: try done.
  all: try (rewrite (IHa Hd); done).
  all: try (rewrite (IHb Hd); done).
Qed.

Lemma already_uploaded_dec (registry : gmap nat Part) k digest :
  already_uploaded registry k digest ∨ ¬ already_uploaded registry k digest.
Proof.
  unfold already_uploaded. destruct (registry !! k) as [old|] eqn:Hk.
  - destruct (decide (etag old = Some digest)) as [He|He].
    + left. by exists old.
    + right. intros (old' & Hold & He'). congruence.
  - right. by intros (old' & Hold & He').
Qed.

(** C10, amended. One call of [_transform] computes the MD5 of its chunk
    at most once; the chunk that finds no session is handed to
    [_transform] again when the session is there, so it is hashed at most
    twice, every other chunk at most once, and every hash computed for a
    chunk is of that chunk. Without SHA256 every request for the chunk
    has the base64 of the digest as Content-MD5. With SHA256 the digest is
    computed only when the chunk gets a part number while a registry
    exists, and then once. The part is skipped exactly when the registry
    records the hex of the digest for its number. *)
Theorem chunk_hashed_once_per_call fuel chunk w :
  let new := emitted (transform fuel chunk) w in
  let w' := snd (transform fuel chunk w) in
  let k := partNumber (this w) in
  let resumed := partNumber (this w') = S k ∧ is_Some (oldParts (this w')) in
  Forall (of_chunk chunk) new
  ∧ count is_hash (emitted (transform 1 chunk) w) ≤ 1
  ∧ count is_hash new ≤ 2
  ∧ (count is_findUploadId new = 0 → count is_hash new ≤ 1)
  ∧ (enableSHA256 client = false →
     ∀ options payload answer,
       In (EvMakeRequest options payload answer) new →
       headers options !! "Content-MD5" = Some (HStr (base64 (md5 chunk))))
  ∧ (enableSHA256 client = true →
     (resumed → count is_hash new = 1) ∧ (¬ resumed → count is_hash new = 0))
  ∧ (∀ registry,
       partNumber (this w') = S k →
       oldParts (this w') = Some registry →
       (count is_uploadPart new = 0
        ↔ already_uploaded registry k (hex (md5 chunk)))).
Proof.
  cbn zeta.
  split; [apply transform_of_chunk|].
  split; [apply transform_hash_once|].
  split; [apply transform_hash_twice|].
  split; [apply transform_hash_ready|].
  split; [intros Hsha options payload answer; by apply transform_content_md5|].
  split; [intros Hsha; by apply transform_lazy_hash|].
  intros registry Hp Hr.
  destruct (transform_resume fuel chunk w registry Hp Hr) as [Hskip Hup].
  split.
  - intros Hnone.
    destruct (already_uploaded_dec registry (partNumber (this w)) (hex (md5 chunk)))
      as [Ha|Ha]; [done|].
    apply Hup in Ha as [_ Hone]. lia.
  - intros Ha. by apply Hskip in Ha as [Hnone _].
Qed.

(** ** Every call of the client *)

Lemma flush_trace w : trace (snd (flush w)) = trace w ++ emitted flush w.
Proof.
  destruct (flush_extends w) as [new H].
  by rewrite (emitted_extends _ _ _ H).
Qed.

(** What holds of every event that [_transform], [_flush] and the listener
    of ['error'] add, holds of the trace of a run. *)
Lemma upload_Forall (P : Event → Prop) fuel chunks :
  (∀ chunk w, Forall P (emitted (transform fuel chunk) w)) →
  (∀ w, Forall P (emitted flush w)) →
  (∀ err, P (EvCallback (CbError err))) →
  Forall P (trace (upload_all fuel chunks)).
Proof.
  intros Ht Hf He. rewrite upload_unfold.
  pose proof (write_Forall P fuel Ht chunks constructor (Forall_nil_2 _)) as Hw.
  destruct (write_all fuel chunks constructor) as [s w]. cbn in Hw.
  assert (Hs : ∀ s w, Forall P (trace w) → Forall P (trace (snd (settle s w)))).
  { intros [|err| |] w1 H1; try done. unfold_M. cbn.
    apply Forall_app. split; [done|]. apply Forall_cons_2; [done|apply Forall_nil_2]. }
  destruct s; try by apply Hs.
  pose proof (flush_trace w) as Hfl. pose proof (Hf w) as Hfw.
  destruct (flush w) as [s' w']. cbn in Hfl.
  apply Hs. rewrite Hfl. by apply Forall_app.
Qed.

Ltac addressed_events :=
  repeat first
    [ apply Forall_nil_2
    | apply Forall_cons_2;
      [first [ exact I
             | by repeat split
             | repeat split; try done; try apply assign_override;
               by simplify_map_eq ]|] ].

Lemma transform_addressed fuel : ∀ chunk w,
  Forall (addressed bucketName objectName metaData)
         (emitted (transform fuel chunk) w).
Proof.
  induction fuel as [|n IH]; intros chunk w.
  { unfold emitted. cbn. rewrite drop_all_trace. apply Forall_nil_2. }
  emitted_paths; rewrite ?drop_all_trace.
  all: by addressed_events.
Qed.

Lemma flush_addressed w :
  Forall (addressed bucketName objectName metaData) (emitted flush w).
Proof.
  unfold emitted. destruct w as [u t].
  flush_paths; rewrite <- ?app_assoc, ?drop_app_length, ?drop_all_trace.
  all: by addressed_events.
Qed.

(** X1. In every run, every call of the client names the bucket and the
    object the uploader was constructed with; every request is a PUT whose
    Content-Length header is the length of the payload it carries,
    whatever the metadata says; a session is created with the metadata. *)
Theorem every_call_addressed fuel chunks :
  Forall (addressed bucketName objectName metaData)
         (trace (upload_all fuel chunks)).
Proof.
  apply upload_Forall; [apply transform_addressed|apply flush_addressed|done].
Qed.

Ltac placed_events :=
  repeat first
    [ apply Forall_nil_2
    | apply Forall_cons_2;
      [first [ exact I
             | cbn; intros k v Hm Hk1 Hk2; apply assign_lookup; [done|];
               by simplify_map_eq
             | cbn; intros k [v Hk];
               destruct (decide (k = "Content-Length")); [by left|];
               destruct (decide (k = "Content-MD5")); [by right|];
               by simplify_map_eq ]|] ].

Lemma transform_metadata fuel : ∀ chunk w,
  Forall (metadata_placed metaData) (emitted (transform fuel chunk) w).
Proof.
  induction fuel as [|n IH]; intros chunk w.
  { unfold emitted. cbn. rewrite drop_all_trace. apply Forall_nil_2. }
  emitted_paths; rewrite ?drop_all_trace.
  all: by placed_events.
Qed.

Lemma flush_metadata w : Forall (metadata_placed metaData) (emitted flush w).
Proof.
  unfold emitted. destruct w as [u t].
  flush_paths; rewrite <- ?app_assoc, ?drop_app_length, ?drop_all_trace.
  all: by placed_events.
Qed.

(** X2. In every run, a PUT of the whole object carries every entry of
    the metadata, apart from Content-Length and Content-MD5, which are
    those of the chunk; a request for a part carries no header but
    Content-Length and Content-MD5, so nothing of the metadata. *)
Theorem metadata_with_whole_object_only fuel chunks :
  Forall (metadata_placed metaData) (trace (upload_all fuel chunks)).
Proof.
  apply upload_Forall; [apply transform_metadata|apply flush_metadata|done].
Qed.

(** ** One upload id *)

Lemma in_session_found (session : option string) e :
  in_session None e → in_session session e.
Proof.
  destruct e as [| o p a | b o [err|found] | b o m [err|new] | | |]; cbn; try done.
  - by destruct (query o).
  - by destruct found as [[|c s]|].
Qed.

Lemma in_session_all session t :
  Forall (in_session None) t → Forall (in_session session) t.
Proof.
  intros H. eapply Forall_impl; [done|]. intros e. apply in_session_found.
Qed.

Lemma truthy_found (found : option string) :
  truthy found = true → Some (default EmptyString found) = found.
Proof. by destruct found as [[|c s]|]. Qed.

Ltac session_events :=
  rewrite <- ?app_assoc; cbn [app];
  repeat first
    [ done
    | apply Forall_nil_2
    | apply Forall_app; split
    | by apply in_session_all
    | apply Forall_cons_2;
      [first [ exact I | reflexivity | done
             | cbn; symmetry; by apply truthy_found
             | cbn; by repeat match goal with
                              | H : _ = _ |- _ => rewrite H
                              end ]|] ].

Lemma transform_in_session fuel : ∀ chunk w,
  Forall (in_session (id (this w))) (trace w) →
  Forall (in_session (id (this (snd (transform fuel chunk w)))))
         (trace (snd (transform fuel chunk w))).
Proof.
  induction fuel as [|n IH]; intros chunk w Hw; [done|].
  destruct w as [u t]. cbn [this trace] in Hw.
  transform_paths; cbn [this trace id].
  all: try (apply IH; cbn [this trace id]).
  all: repeat match goal with
              | H : id _ = _ |- _ => rewrite H in Hw
              | H : negb _ = false |- _ => apply negb_false_iff in H
              | H : negb _ = true |- _ => apply negb_true_iff in H
              | H : truthy _ = true |- _ =>
                rewrite (truthy_found _ H) in *
              end.
  all: session_events.
Qed.

Lemma write_in_session fuel chunks : ∀ w,
  Forall (in_session (id (this w))) (trace w) →
  Forall (in_session (id (this (snd (write_all fuel chunks w)))))
         (trace (snd (write_all fuel chunks w))).
Proof.
  induction chunks as [|c chunks IH]; intros w Hw; [done|].
  cbn [write]. unfold bind.
  pose proof (transform_in_session fuel c w Hw) as Hc.
  destruct (transform fuel c w) as [s w1]. cbn in Hc.
  destruct s; cbn; auto.
Qed.

(** X3. In every run, all that is done in a session is done in the one
    the run ends with: the upload id that was found, when one was found,
    or the one that was created, is the id under which the parts were
    listed, every part was requested and the upload was completed. *)
Theorem one_upload_id fuel chunks :
  let final := upload_all fuel chunks in
  Forall (in_session (id (this final))) (trace final).
Proof.
  cbn zeta. rewrite upload_this, upload_unfold.
  pose proof (write_in_session fuel chunks constructor (Forall_nil_2 _)) as Hw.
  destruct (write_all fuel chunks constructor) as [s w]. cbn in Hw.
  destruct w as [u t]. cbn [this trace snd] in *.
  destruct s; [flush_paths|unfold_M; cbn..]; cbn [this trace id].
  all: repeat match goal with
              | H : id _ = _ |- _ => rewrite H in *
              end.
  all: session_events.
Qed.

(** ** One outcome for the caller *)

Lemma transform_no_result fuel : ∀ chunk w,
  (partNumber (this w) =? 1) && (length chunk <? partSize) = false →
  count is_result (emitted (transform fuel chunk) w) = 0.
Proof.
  induction fuel as [|n IH]; intros chunk w Hc.
  { cbn [_transform]. by rewrite emitted_nothing. }
  destruct w as [u t]. cbn in Hc.
  emitted_paths; rewrite ?drop_all_trace; count_events; rewrite ?IH;
    try done; congruence.
Qed.

Lemma write_no_result fuel chunks : ∀ w,
  2 ≤ partNumber (this w) →
  count is_result (trace (snd (write_all fuel chunks w))) =
  count is_result (trace w).
Proof.
  induction chunks as [|c chunks IH]; intros w Hp; [done|].
  cbn [write]. unfold bind.
  pose proof (transform_partNumber fuel c w) as Hn.
  pose proof (transform_count is_result fuel c w) as Hc.
  rewrite transform_no_result in Hc
    by (destruct (Nat.eqb_spec (partNumber (this w)) 1); [lia|done]).
  destruct (transform fuel c w) as [s w1]. cbn in Hn, Hc.
  destruct s; cbn; try lia. rewrite IH; lia.
Qed.

Lemma clean_no_error t : clean t → count is_error t = 0.
Proof.
  intros Hc. apply count_zero. unfold clean in Hc.
  rewrite List.Forall_forall in Hc. intros e He. by apply Hc in He as [_ ?].
Qed.

Lemma failure_is_a_call e err :
  failure e = Some err → is_error e = false ∧ is_result e = false.
Proof. by destruct e. Qed.

Lemma signalled_errors s t :
  signalled s t →
  count is_error t = match s with Pending => 1 | _ => 0 end.
Proof.
  destruct s as [|err| |]; cbn; try apply clean_no_error.
  - intros (h & e & -> & Hh & He). apply failure_is_a_call in He as [He _].
    rewrite count_app, count_cons, count_nil, He, clean_no_error; done.
  - intros (h & e & err & -> & Hh & He). apply failure_is_a_call in He as [He _].
    rewrite count_app, !count_cons, count_nil, He, clean_no_error; done.
Qed.

(** The chunks are parts from the first one on when it is not short. *)
Lemma write_multipart fuel chunk rest s w :
  2 ≤ fuel →
  short partSize chunk = false →
  write_all fuel (chunk :: rest) constructor = (s, w) →
  count is_result (trace w) = 0
  ∧ signalled s (trace w)
  ∧ s ≠ OutOfFuel
  ∧ emptyStream (this w) = false
  ∧ (s = Done → is_Some (id (this w))).
Proof.
  intros Hf Hs Hw.
  pose proof (write_signalled fuel (chunk :: rest) constructor (Forall_nil_2 _)) as Hsig.
  pose proof (write_total fuel (chunk :: rest) constructor Hf) as Htot.
  rewrite Hw in Hsig, Htot. cbn [fst snd] in Hsig, Htot.
  split; [|split; [done|split; [done|split]]].
  - replace w with (snd (write_all fuel (chunk :: rest) constructor))
      by (by rewrite Hw).
    cbn [write]. unfold bind.
    pose proof (transform_count is_result fuel chunk constructor) as Hc.
    rewrite transform_no_result in Hc by (by unfold short in Hs; cbn; rewrite Hs).
    destruct (transform fuel chunk constructor) as [s1 w1] eqn:Ht. cbn in Hc.
    destruct s1; cbn; try done.
    rewrite write_no_result; [done|].
    assert (Hn : numbered partSize ([] ++ [chunk]) w1).
    { eapply transform_numbered; [|done]. unfold numbered, constructor. cbn.
      by repeat split. }
    destruct Hn as (Hn & _). cbn in Hn. rewrite Hs in Hn. cbn in Hn. lia.
  - replace w with (snd (write_all fuel (chunk :: rest) constructor))
      by (by rewrite Hw).
    destruct fuel as [|n]; [lia|].
    cbn [write]. unfold bind.
    pose proof (transform_not_empty n chunk constructor) as Hc.
    destruct (transform (S n) chunk constructor) as [s1 w1]. cbn in Hc.
    destruct s1; cbn; try done. by apply write_stays_not_empty.
  - intros ->. pose proof (write_numbered _ _ _ Hw) as (Hn & _).
    pose proof (write_unbound _ _ _ Hw) as Hu.
    cbn in Hn. rewrite Hs in Hn. cbn in Hn.
    destruct (id (this w)); [by eexists|]. specialize (Hu eq_refl). lia.
Qed.

(** X4. When a short chunk comes first only where it is the whole object,
    as the chunker upstream has it, the caller's callback is called once
    in a run: with a result where no call failed, with the error of the
    call that failed otherwise. *)
Theorem one_outcome_per_upload fuel chunks :
  2 ≤ fuel →
  (∀ chunk rest,
     chunks = chunk :: rest → short partSize chunk = true → rest = []) →
  let t := trace (upload_all fuel chunks) in
  count is_result t + count is_error t = 1
  ∧ (clean t → count is_result t = 1 ∧ count is_error t = 0)
  ∧ (halted t → count is_result t = 0 ∧ count is_error t = 1).
Proof.
  intros Hf Hchunks. cbn zeta.
  assert (Hone : count is_result (trace (upload_all fuel chunks))
                 + count is_error (trace (upload_all fuel chunks)) = 1).
  { destruct chunks as [|chunk rest].
    - unfold upload, pipe. cbn [write]. unfold _flush, constructor.
      paths; count_events; done.
    - destruct (short partSize chunk) eqn:Hs.
      + rewrite (Hchunks chunk rest eq_refl Hs).
        destruct fuel as [|n]; [lia|]. unfold short in Hs.
        unfold upload, pipe. cbn [write _transform]. unfold _flush, constructor.
        unfold_M. cbn. rewrite Hs. cbn.
        repeat (split_match; cbn); count_events; done.
      + rewrite upload_unfold.
        destruct (write_all fuel (chunk :: rest) constructor) as [s w] eqn:Hw.
        destruct (write_multipart _ _ _ _ _ Hf Hs Hw)
          as (Hr & Hsig & Htot & He & Hid).
        apply signalled_errors in Hsig.
        destruct w as [u t]. cbn [this trace] in *.
        destruct s; try done.
        * destruct (Hid eq_refl) as [i Hi].
          flush_paths; count_events; try congruence; lia.
        * unfold_M. cbn. count_events. lia.
        * unfold_M. cbn. lia. }
  split; [done|]. split.
  - intros Hc. apply clean_no_error in Hc. lia.
  - intros Hh. apply (signalled_errors Pending) in Hh. lia.
Qed.

(** ** The callback of the stream at its end *)

Lemma clean_snoc t e : clean (t ++ [e]) → failure e = None ∧ is_error e = false.
Proof.
  intros Hc. apply Forall_app in Hc as [_ Hc]. by apply Forall_cons_1 in Hc as [? _].
Qed.

Lemma signalled_clean s t :
  signalled s t → clean t → s = Done ∨ s = OutOfFuel.
Proof.
  destruct s as [|err| |]; cbn; auto.
  - intros (h & e & -> & _ & He) [Hc _]%clean_snoc. congruence.
  - intros (h & e & err & -> & _ & He) Hc.
    rewrite (assoc_L _ h [e] [_] : h ++ [e; EvCallback (CbError err)]
                                   = (h ++ [e]) ++ [EvCallback (CbError err)]) in Hc.
    by apply clean_snoc in Hc as [_ Hc].
Qed.

Lemma write_first_not_empty fuel chunk rest :
  1 ≤ fuel →
  emptyStream (this (snd (write_all fuel (chunk :: rest) constructor))) = false.
Proof.
  intros Hf. destruct fuel as [|n]; [lia|].
  cbn [write]. unfold bind.
  pose proof (transform_not_empty n chunk constructor) as Hc.
  destruct (transform (S n) chunk constructor) as [s1 w1]. cbn in Hc.
  destruct s1; cbn; try done. by apply write_stays_not_empty.
Qed.

(** X5. In a run in which no call fails, [_flush] calls the callback of
    the stream when the object was empty and when there is a session to
    complete; after chunks that were each PUT as a whole object it returns
    without calling it. *)
Theorem flush_callback_after_single_put fuel chunks :
  2 ≤ fuel →
  clean (trace (upload_all fuel chunks)) →
  let signal := fst (pipe_all fuel chunks constructor) in
  let final := upload_all fuel chunks in
  (chunks = [] ∨ is_Some (id (this final)) → signal = Done)
  ∧ (chunks ≠ [] → id (this final) = None → signal = Pending).
Proof.
  intros Hf. cbn zeta. rewrite upload_this. unfold upload, pipe, bind.
  pose proof (write_signalled fuel chunks constructor (Forall_nil_2 _)) as Hsig.
  pose proof (write_total fuel chunks constructor Hf) as Htot.
  assert (Hempty : chunks ≠ [] →
            emptyStream (this (snd (write_all fuel chunks constructor))) = false).
  { destruct chunks; [done|]. intros _. apply write_first_not_empty. lia. }
  assert (Hnil : chunks = [] → write_all fuel chunks constructor = (Done, constructor)).
  { by intros ->. }
  destruct (write_all fuel chunks constructor) as [s w]. cbn [fst snd] in *.
  destruct s; try done.
  - destruct w as [u t]. cbn [this trace] in *.
    flush_paths; intros Hc.
    all: try (by apply clean_snoc in Hc as [? ?]).
    all: split; try done.
    all: try (intros [->|[? ?]]; [|done]; specialize (Hnil eq_refl);
              unfold constructor in Hnil; simplify_eq; cbn in *; done).
    all: try (intros Hn; specialize (Hempty Hn); congruence).
    all: try (intros Hn; congruence).
  - unfold_M. cbn. intros Hc. by apply clean_snoc in Hc as [_ ?].
  - intros Hc. destruct (signalled_clean _ _ Hsig Hc); done.
Qed.

(** ** No part is requested twice *)

Lemma transform_count_once fuel : ∀ chunk w j,
  count (is_uploadPart_of j) (emitted (transform fuel chunk) w) ≤ 1.
Proof.
  induction fuel as [|n IH]; intros chunk w j.
  { cbn [_transform]. rewrite emitted_nothing, count_nil. lia. }
  destruct w as [u t].
  emitted_paths; rewrite ?drop_all_trace; count_events; try lia.
  all: try (by destruct (partNumber u =? j); cbn; lia).
  all: apply IH.
Qed.

(** A chunk that gets a part number is not PUT as a whole object. *)
Lemma transform_numbers fuel : ∀ chunk w,
  partNumber (this (snd (transform fuel chunk w))) ≠ partNumber (this w) →
  (partNumber (this w) =? 1) && (length chunk <? partSize) = false.
Proof.
  induction fuel as [|n IH]; intros chunk w; [done|].
  destruct w as [u t].
  transform_paths; cbn [this partNumber]; try done.
Qed.

Lemma parts_of_app_length (before after : list Buffer) :
  length (parts_of partSize before) ≤ length (parts_of partSize (before ++ after)).
Proof.
  induction before as [|c before IH]; cbn [parts_of app]; [cbn; lia|].
  destruct (short partSize c); [done|]. cbn. rewrite length_app. lia.
Qed.

Lemma write_at_most_once fuel chunks : ∀ w,
  (∀ j, partNumber (this w) ≤ j → count (is_uploadPart_of j) (trace w) = 0) →
  (∀ j, count (is_uploadPart_of j) (trace w) ≤ 1) →
  ∀ j, count (is_uploadPart_of j) (trace (snd (write_all fuel chunks w))) ≤ 1.
Proof.
  induction chunks as [|c chunks IH]; intros w Hfresh Hw j; [apply Hw|].
  cbn [write]. unfold bind.
  pose proof (transform_fresh_parts fuel c w Hfresh) as Hfresh1.
  assert (Hw1 : ∀ j, count (is_uploadPart_of j)
                           (trace (snd (transform fuel c w))) ≤ 1).
  { intros i. rewrite transform_count.
    destruct (decide (i = partNumber (this w))) as [->|Hi].
    - rewrite Hfresh by lia. apply transform_count_once.
    - rewrite transform_count_other by done. specialize (Hw i). lia. }
  destruct (transform fuel c w) as [s w1]. cbn [snd] in *.
  destruct s; cbn; auto.
Qed.

Lemma write_parts_range fuel chunks : ∀ consumed w,
  numbered partSize consumed w →
  (∀ j, partNumber (this w) ≤ j → count (is_uploadPart_of j) (trace w) = 0) →
  ∀ j, length (parts_of partSize (consumed ++ chunks)) < j →
       count (is_uploadPart_of j) (trace (snd (write_all fuel chunks w))) = 0.
Proof.
  induction chunks as [|c chunks IH]; intros consumed w Hn Hfresh j Hj.
  { rewrite app_nil_r in Hj. destruct Hn as (Hn & _). apply Hfresh. cbn. lia. }
  cbn [write]. unfold bind.
  pose proof (parts_of_app_length consumed (c :: chunks)) as Hlen.
  pose proof (parts_of_app_length (consumed ++ [c]) chunks) as Hlen1.
  rewrite <- (assoc_L _ consumed [c] chunks) in Hlen1. cbn [app] in Hlen1.
  pose proof (transform_fresh_parts fuel c w Hfresh) as Hfresh1.
  pose proof (transform_numbered fuel consumed c w) as Hn1.
  assert (Hc : count (is_uploadPart_of j) (trace (snd (transform fuel c w))) = 0).
  { rewrite transform_count. rewrite Hfresh by (destruct Hn as (-> & _); lia).
    destruct (decide (partNumber (this (snd (transform fuel c w)))
                      = partNumber (this w))) as [Heq|Hne].
    - by rewrite transform_count_unnumbered.
    - apply transform_numbers in Hne.
      rewrite (numbered_part _ _ _ Hn Hne), length_app in Hlen1. cbn in Hlen1.
      rewrite transform_count_other; [done|]. destruct Hn as (-> & _). lia. }
  destruct (transform fuel c w) as [s w1]. cbn [snd] in *.
  destruct s; cbn; try done.
  rewrite (assoc_L _ consumed [c] chunks : consumed ++ c :: chunks
                                           = (consumed ++ [c]) ++ chunks) in Hj.
  eapply IH; [by apply Hn1|done|done].
Qed.

(** X6. In every run a part number is requested at most once, whether the
    session is new or resumed, and no part is requested under a number
    that is 0 or beyond the number of the chunks that are parts. *)
Theorem no_part_requested_twice fuel chunks k :
  let t := trace (upload_all fuel chunks) in
  count (is_uploadPart_of k) t ≤ 1
  ∧ (k = 0 ∨ length (parts_of partSize chunks) < k →
     count (is_uploadPart_of k) t = 0).
Proof.
  cbn zeta. rewrite upload_count_parts. split.
  - apply write_at_most_once; intros j; rewrite ?count_nil; lia.
  - intros [->|Hk].
    + rewrite write_count_below; [done|]. cbn. lia.
    + apply (write_parts_range fuel chunks []); [|done|done].
      unfold numbered, constructor. cbn. by repeat split.
Qed.

(** ** Where the etags of the completed upload come from *)

Lemma origin_mono H t new registry parts more p :
  origin H t registry parts p → origin H (t ++ new) registry (parts ++ more) p.
Proof.
  intros [(o & payload & response & uploadId & Hin & Hq & He)
         |(r & old & chunk & Hr & Hold & He & Hc & Hd)].
  - left. exists o, payload, response, uploadId. split; [|done].
    apply in_app_iff. by left.
  - right. exists r, old, chunk. repeat split; try done.
    by apply lookup_app_l_Some.
Qed.

Ltac origin_old :=
  eapply Forall_impl; [eassumption|]; intros ? ?;
  rewrite <- ?app_assoc;
  first [ by apply origin_mono
        | rewrite <- (app_nil_r (parts_of _ _)); by apply origin_mono ].

Lemma transform_origin fuel : ∀ consumed chunk w w',
  numbered partSize consumed w →
  (id (this w) = None → etags (this w) = []) →
  Forall (origin (λ c, hex (md5 c)) (trace w) (oldParts (this w))
                 (parts_of partSize consumed))
         (etags (this w)) →
  transform fuel chunk w = (Done, w') →
  Forall (origin (λ c, hex (md5 c)) (trace w') (oldParts (this w'))
                 (parts_of partSize (consumed ++ [chunk])))
         (etags (this w'))
  ∧ (id (this w') = None → etags (this w') = []).
Proof.
  induction fuel as [|n IH]; intros consumed chunk w w' Hn Hnone Ho; [done|].
  pose proof (numbered_single consumed chunk w Hn) as Hsingle.
  pose proof (numbered_part consumed chunk w Hn) as Hpart.
  destruct w as [u t]. cbn [this trace] in *.
  transform_paths; intros Heq; simplify_eq; cbn [this trace etags oldParts id].
  all: try match goal with
           | Heq : transform _ _ ?w1 = (Done, _) |- _ =>
             eapply (IH consumed _ w1 _); [| | |exact Heq];
             cbn [this trace etags oldParts id];
             rewrite <- ?app_assoc; cbn [app];
             [ eapply numbered_same; [done|done|done|done|carried]
             | done
             | rewrite Hnone by done; apply Forall_nil_2 ]
           end.
  all: rewrite ?Hsingle, ?Hpart by done.
  all: (split; [|by auto]).
  all: repeat match goal with
              | H : oldParts _ = _ |- _ => rewrite H in Ho; clear H
              end.
  all: try origin_old.
  all: apply Forall_app; (split; [origin_old|]).
  all: apply Forall_cons_2; [|apply Forall_nil_2].
  all: destruct Hn as (Hpn & _); cbn [this partNumber] in Hpn.
  all: try (left; eexists _, _, _, _;
            (split; [rewrite !in_app_iff; cbn; by auto|done])).
  all: right.
  all: match goal with
       | H : Some _ = etag ?old |- _ => unfold recorded; eexists _, old, chunk
       end.
  all: repeat split; try done.
  all: cbn [part]; rewrite Hpn, Nat.sub_1_r; cbn [Nat.pred].
  all: by rewrite lookup_app_r, Nat.sub_diag.
Qed.

Lemma write_origin fuel chunks w :
  write_all fuel chunks constructor = (Done, w) →
  Forall (origin (λ c, hex (md5 c)) (trace w) (oldParts (this w))
                 (parts_of partSize chunks))
         (etags (this w)).
Proof.
  intros Hw.
  refine (proj1 (proj2
    (write_invariant
       (λ consumed w,
          numbered partSize consumed w
          ∧ Forall (origin (λ c, hex (md5 c)) (trace w) (oldParts (this w))
                           (parts_of partSize consumed))
                   (etags (this w))
          ∧ (id (this w) = None → etags (this w) = []))
       fuel _ chunks [] constructor w _ Hw))).
  - intros consumed chunk w1 w2 (Hn & Ho & Hnone) Ht. split.
    + by eapply transform_numbered.
    + by eapply transform_origin.
  - unfold numbered, constructor. cbn. by repeat split.
Qed.

(** X7. The etag of every part handed to [completeMultipartUpload] is the
    etag of the response to the request for that part in this run,
    normalized, or the etag the listing of the resumed upload records for
    that part number, which is then the hex MD5 of the chunk of that
    number. *)
Theorem completed_etags_origin
    fuel chunks bucket object uploadId parts answer :
  let final := upload_all fuel chunks in
  In (EvCompleteMultipartUpload bucket object uploadId parts answer)
     (trace final) →
  Forall (origin (λ c, hex (md5 c)) (trace final) (oldParts (this final))
                 (parts_of partSize chunks))
         parts.
Proof.
  cbn zeta. rewrite upload_this, upload_unfold.
  pose proof (write_no_complete fuel chunks) as Hnc.
  destruct (write_all fuel chunks constructor) as [s w] eqn:Hw. cbn in Hnc.
  assert (Hold : ∀ e, In e (trace w) → is_complete e = false).
  { by apply List.Forall_forall. }
  cbn [snd].
  destruct s.
  - apply write_origin in Hw.
    destruct w as [u t]. cbn [this trace] in *.
    flush_paths; intros Hin; in_events Hin; simplify_eq.
    all: try (apply Hold in Hin; done).
    all: origin_old.
  - unfold_M. cbn. intros Hin. in_events Hin; simplify_eq. by apply Hold in Hin.
  - unfold_M. cbn. intros Hin. by apply Hold in Hin.
  - unfold_M. cbn. intros Hin. by apply Hold in Hin.
Qed.

(** ** Resuming an upload whose parts are all there *)

Lemma transform_count_whole fuel : ∀ chunk w,
  partNumber (this (snd (transform fuel chunk w))) = partNumber (this w) →
  count is_uploadPart (emitted (transform fuel chunk) w) = 0.
Proof.
  induction fuel as [|n IH]; intros chunk w.
  { cbn [_transform]. by rewrite emitted_nothing. }
  destruct w as [u t].
  emitted_paths; rewrite ?drop_all_trace; cbn [this partNumber].
  all: try lia.
  all: intros Hp; count_events; rewrite ?IH; done.
Qed.

Lemma transform_numbers_session fuel : ∀ chunk w,
  partNumber (this (snd (transform fuel chunk w))) ≠ partNumber (this w) →
  is_Some (id (this (snd (transform fuel chunk w)))).
Proof.
  induction fuel as [|n IH]; intros chunk w; [done|].
  destruct w as [u t].
  transform_paths; cbn [this partNumber id]; try done.
  all: try (intros _; by eexists).
  all: apply IH.
Qed.

Lemma write_oldParts fuel chunks : ∀ w,
  is_Some (id (this w)) →
  oldParts (this (snd (write_all fuel chunks w))) = oldParts (this w).
Proof.
  induction chunks as [|c chunks IH]; intros w [i Hi]; [done|].
  cbn [write]. unfold bind.
  destruct (transform_id fuel c w i Hi) as [Hc Ho].
  destruct (transform fuel c w) as [s w1]. cbn in Hc, Ho.
  destruct s; cbn; try done. rewrite IH; [done|by eexists].
Qed.

Lemma parts_of_app (before after : list Buffer) :
  parts_of partSize (before ++ after) =
  match parts_of partSize before with
  | [] => parts_of partSize after
  | parts => parts ++ after
  end.
Proof.
  induction before as [|c before IH]; [done|].
  cbn [parts_of app]. by destruct (short partSize c).
Qed.

(** The chunk that gets the part number [k] is the [k]-th of the parts. *)
Lemma numbered_next consumed (chunk : Buffer) rest w :
  numbered partSize consumed w →
  (partNumber (this w) =? 1) && (length chunk <? partSize) = false →
  parts_of partSize (consumed ++ chunk :: rest) !! (partNumber (this w) - 1)
  = Some chunk.
Proof.
  intros Hn Hc. pose proof (numbered_part _ _ _ Hn Hc) as Hp.
  destruct Hn as (Hn & _). rewrite Hn, Nat.sub_1_r. cbn [Nat.pred].
  rewrite (assoc_L _ consumed [chunk] rest : consumed ++ chunk :: rest
                                             = (consumed ++ [chunk]) ++ rest).
  rewrite parts_of_app, Hp.
  destruct (parts_of partSize consumed) as [|p ps] eqn:Hps; cbn [app length].
  - done.
  - rewrite <- app_assoc. cbn [app].
    change (p :: ps ++ chunk :: rest) with ((p :: ps) ++ chunk :: rest).
    by rewrite lookup_app_r, Nat.sub_diag.
Qed.

Lemma write_resumed fuel chunks : ∀ consumed w registry,
  numbered partSize consumed w →
  oldParts (this (snd (write_all fuel chunks w))) = Some registry →
  (∀ k chunk,
     parts_of partSize (consumed ++ chunks) !! k = Some chunk →
     already_uploaded registry (S k) (hex (md5 chunk))) →
  count is_uploadPart (trace (snd (write_all fuel chunks w))) =
  count is_uploadPart (trace w).
Proof.
  induction chunks as [|c chunks IH]; intros consumed w registry Hn; [done|].
  cbn [write]. unfold bind.
  pose proof (transform_partNumber fuel c w) as Hp.
  pose proof (transform_count is_uploadPart fuel c w) as Hcount.
  pose proof (transform_count_whole fuel c w) as Hwhole.
  pose proof (transform_numbers fuel c w) as Hcond.
  pose proof (transform_numbers_session fuel c w) as Hid.
  pose proof (transform_resume fuel c w registry) as Hres. cbn zeta in Hres.
  pose proof (transform_numbered fuel consumed c w) as Hn1.
  destruct (transform fuel c w) as [s w1]. cbn [fst snd] in *.
  intros Hreg Hall.
  assert (Hstep : count is_uploadPart (trace w1) = count is_uploadPart (trace w)).
  { destruct (decide (partNumber (this w1) = partNumber (this w))) as [Heq|Hne].
    - rewrite Hcount, Hwhole; [lia|done].
    - assert (Hreg1 : oldParts (this w1) = Some registry).
      { destruct s; try done. rewrite write_oldParts in Hreg; auto. }
      specialize (Hcond Hne).
      destruct (Hres ltac:(lia) Hreg1) as [Hskip _].
      destruct Hskip as [Hnone _].
      { pose proof (numbered_next consumed c chunks w Hn Hcond) as Hk.
        apply Hall in Hk. destruct Hn as (Hpn & _). rewrite Hpn in *.
        by rewrite Nat.sub_1_r in Hk. }
      lia. }
  destruct s; cbn [snd] in *; try done.
  rewrite <- Hstep.
  apply (IH (consumed ++ [c]) w1 registry); [by apply Hn1|done|].
  by rewrite <- (assoc_L _ consumed [c] chunks).
Qed.

Lemma upload_count_uploadPart fuel chunks :
  count is_uploadPart (trace (upload_all fuel chunks)) =
  count is_uploadPart (trace (snd (write_all fuel chunks constructor))).
Proof.
  rewrite upload_unfold.
  destruct (write_all fuel chunks constructor) as [s w]. destruct w as [u t].
  destruct s; [flush_paths|unfold_M; cbn..]; count_events; lia.
Qed.

(** X8. When the listing of the resumed upload records, for every chunk
    that is a part, the hex MD5 of the chunk under its number, no part is
    requested in the run: nothing of the object is sent again. *)
Theorem resumed_upload_sends_no_part fuel chunks registry :
  let final := upload_all fuel chunks in
  oldParts (this final) = Some registry →
  (∀ k chunk,
     parts_of partSize chunks !! k = Some chunk →
     already_uploaded registry (S k) (hex (md5 chunk))) →
  count is_uploadPart (trace final) = 0.
Proof.
  cbn zeta. rewrite upload_this, upload_count_uploadPart. intros Hreg Hall.
  by rewrite (write_resumed fuel chunks [] constructor registry).
Qed.

(** ** A new session: every part is requested *)

Lemma transform_new_part fuel : ∀ chunk w,
  partNumber (this (snd (transform fuel chunk w))) ≠ partNumber (this w) →
  oldParts (this (snd (transform fuel chunk w))) = None →
  count (is_uploadPart_of (partNumber (this w)))
        (emitted (transform fuel chunk) w) = 1.
Proof.
  induction fuel as [|n IH]; intros chunk w; [done|].
  destruct w as [u t].
  emitted_paths; rewrite ?drop_all_trace; cbn [this partNumber oldParts].
  all: try done.
  all: intros Hp Ho; count_events; rewrite ?Nat.eqb_refl; try done.
  all: pose proof (IH _ _ Hp Ho) as IH'; cbn [this partNumber] in IH';
    by rewrite IH'.
Qed.

Lemma write_new_session fuel chunks : ∀ consumed w w',
  numbered partSize consumed w →
  (∀ j, partNumber (this w) ≤ j → count (is_uploadPart_of j) (trace w) = 0) →
  write_all fuel chunks w = (Done, w') →
  oldParts (this w') = None →
  ∀ k, partNumber (this w) ≤ k ≤ length (parts_of partSize (consumed ++ chunks)) →
       count (is_uploadPart_of k) (trace w') = 1.
Proof.
  induction chunks as [|c chunks IH]; intros consumed w w' Hn Hfresh Hw Ho k Hk.
  { rewrite app_nil_r in Hk. destruct Hn as (Hn & _). lia. }
  cbn [write] in Hw. unfold bind in Hw.
  pose proof (transform_partNumber fuel c w) as Hp.
  pose proof (transform_count (is_uploadPart_of k) fuel c w) as Hcount.
  pose proof (transform_numbers_session fuel c w) as Hid.
  pose proof (transform_new_part fuel c w) as Hnew.
  pose proof (transform_fresh_parts fuel c w Hfresh) as Hfresh1.
  pose proof (transform_numbered fuel consumed c w) as Hn1.
  destruct (transform fuel c w) as [s w1]. cbn [fst snd] in *.
  destruct s; try done.
  specialize (Hn1 w1 Hn eq_refl).
  rewrite (assoc_L _ consumed [c] chunks : consumed ++ c :: chunks
                                           = (consumed ++ [c]) ++ chunks) in Hk.
  destruct (decide (partNumber (this w1) ≤ k)) as [Hle|Hgt].
  { eapply (IH (consumed ++ [c]) w1 w'); [done|done|done|done|lia]. }
  assert (Hne : partNumber (this w1) ≠ partNumber (this w)) by lia.
  assert (k = partNumber (this w)) as -> by lia.
  replace w' with (snd (write_all fuel chunks w1)) by (by rewrite Hw).
  rewrite write_count_below by lia.
  rewrite Hcount, Hfresh by lia. rewrite Hnew; [done|done|].
  replace w' with (snd (write_all fuel chunks w1)) in Ho by (by rewrite Hw).
  rewrite write_oldParts in Ho; auto.
Qed.

(** X9. In a run that completes an upload without a registry of old
    parts, that is in a new session, every chunk that is a part was
    requested, once, under its number. *)
Theorem new_session_requests_every_part
    fuel chunks bucket object uploadId parts answer k :
  let final := upload_all fuel chunks in
  In (EvCompleteMultipartUpload bucket object uploadId parts answer)
     (trace final) →
  oldParts (this final) = None →
  1 ≤ k ≤ length (parts_of partSize chunks) →
  count (is_uploadPart_of k) (trace final) = 1.
Proof.
  cbn zeta. rewrite upload_this, upload_count_parts.
  intros Hin Ho Hk.
  destruct (write_all fuel chunks constructor) as [s w] eqn:Hw.
  assert (s = Done) as ->.
  { pose proof (write_no_complete fuel chunks) as Hnc.
    rewrite upload_unfold, Hw in Hin. cbn [snd] in Hnc. rewrite Hw in Hnc.
    cbn [snd] in Hnc. rewrite List.Forall_forall in Hnc.
    destruct s; try done; exfalso; unfold_M; cbn in Hin.
    - in_events Hin; try done. by apply Hnc in Hin.
    - by apply Hnc in Hin.
    - by apply Hnc in Hin. }
  cbn [snd] in *.
  by apply (write_new_session fuel chunks [] constructor w).
Qed.

(** ** Content-MD5 on every chunk *)

Lemma transform_content_md5_payload fuel chunk w :
  enableSHA256 client = false →
  Forall (content_md5 md5 base64) (emitted (transform fuel chunk) w).
Proof.
  intros Hsha. apply List.Forall_forall. intros e He.
  pose proof (transform_of_chunk fuel chunk w) as Hc.
  rewrite List.Forall_forall in Hc. specialize (Hc e He).
  destruct e as [| o payload a | | | | |]; try done.
  cbn in Hc. subst payload. cbn. by eapply transform_content_md5.
Qed.

(** Without SHA256, every request that [_transform] makes for a chunk has
    the base64 MD5 of the chunk as Content-MD5. *)
Lemma write_content_md5 fuel chunks :
  enableSHA256 client = false →
  Forall (content_md5 md5 base64)
         (trace (snd (write_all fuel chunks constructor))).
Proof.
  intros Hsha. apply write_Forall; [|apply Forall_nil_2].
  intros chunk w. by apply transform_content_md5_payload.
Qed.
End Proofs.

(** * The stream transformers *)

Lemma through_callbacks {S V}
    (step : S → Buffer → S) (flush : S → list (Step V)) chunks : ∀ s,
  through (λ s chunk, (step s chunk, [Callback None])) flush s chunks =
  repeat (Callback None) (length chunks) ++ flush (foldl step s chunks).
Proof.
  induction chunks as [|c chunks IH]; intros s; [done|].
  cbn. by rewrite IH.
Qed.

Lemma foldl_snoc {A} (chunks : list A) : ∀ bufs,
  foldl (λ bufs chunk, bufs ++ [chunk]) bufs chunks = bufs ++ chunks.
Proof.
  induction chunks as [|c chunks IH]; intros bufs; cbn.
  - by rewrite app_nil_r.
  - by rewrite IH, <- app_assoc.
Qed.

Lemma pushed_app {V} (a b : list (Step V)) : pushed (a ++ b) = pushed a ++ pushed b.
Proof. apply omap_app. Qed.

Lemma errors_of_app {V} (a b : list (Step V)) :
  errors_of (a ++ b) = errors_of a ++ errors_of b.
Proof. apply omap_app. Qed.

Lemma throws_app {V} (a b : list (Step V)) : throws (a ++ b) = throws a || throws b.
Proof. apply existsb_app. Qed.

Lemma pushed_callbacks {V} n : pushed (repeat (@Callback V None) n) = [].
Proof. induction n; [done|]. done. Qed.

Lemma errors_of_callbacks {V} n : errors_of (repeat (@Callback V None) n) = [].
Proof. induction n; [done|]. done. Qed.

Lemma throws_callbacks {V} n : throws (repeat (@Callback V None) n) = false.
Proof. induction n; [done|]. done. Qed.

Lemma run_getConcater {V} toString (parser : option (string → Error + V))
    emitError chunks :
  run (getConcater toString parser emitError) chunks =
  repeat (Callback None) (length chunks)
  ++ stream_flush (getConcater toString parser emitError) chunks.
Proof.
  unfold run. cbn [getConcater stream_transform stream_flush state].
  rewrite (through_callbacks (λ bufs chunk, bufs ++ [chunk])).
  by rewrite foldl_snoc.
Qed.

(** X10. The stream of [getConcater] without a parser pushes nothing
    before its end; at its end it pushes one buffer, the chunks it was
    written in their order, or nothing when no chunk was written; it
    never calls back with an error. What it pushes does not depend on
    how the data was cut into chunks. *)
Theorem concater_pushes_the_concatenation {V} toString (chunks : list Buffer) :
  let steps := run (getConcater (V := V) toString None false) chunks in
  pushed steps = match chunks with [] => [] | _ => [inl (concat chunks)] end
  ∧ errors_of steps = []
  ∧ throws steps = false
  ∧ (∀ chunks' : list Buffer,
       chunks ≠ [] → chunks' ≠ [] → concat chunks = concat chunks' →
       pushed (run (getConcater (V := V) toString None false) chunks')
       = pushed steps).
Proof.
  cbn zeta.
  assert (Hp : ∀ cs : list Buffer,
            pushed (run (getConcater (V := V) toString None false) cs)
            = match cs with [] => [] | _ => [inl (concat cs)] end).
  { intros cs. rewrite run_getConcater, pushed_app, pushed_callbacks.
    by destruct cs. }
  split; [apply Hp|]. split; [|split].
  - rewrite run_getConcater, errors_of_app, errors_of_callbacks. by destruct chunks.
  - rewrite run_getConcater, throws_app, throws_callbacks. by destruct chunks.
  - intros chunks' Hc Hc' Heq. rewrite !Hp.
    destruct chunks, chunks'; try done. by rewrite Heq.
Qed.

(** X11. The stream of [getErrorTransformer] never pushes data and never
    throws: whatever the body of the response, it calls back once, with
    an error, and then ends. The error is the one [parseError] makes of
    the body; where the body is empty or [parseError] throws, it is the
    error made of the status, with the three headers of the response or,
    before the headers were sent, with none. *)
Theorem error_transformer_always_errors
    toString parseError (response : IncomingMessage) (chunks : list Buffer) :
  let steps := run (getErrorTransformer toString parseError response) chunks in
  let body := toString (concat chunks) in
  let fallback := getError response in
  pushed steps = []
  ∧ throws steps = false
  ∧ (∃ e, steps = repeat (Callback None) (length chunks)
                  ++ [Callback (Some e); PushNull]
          ∧ errors_of steps = [e]
          ∧ (body = EmptyString → e = fallback)
          ∧ (∀ ex, parseError body (headerInfo_of response) = inl ex →
                   e = fallback)
          ∧ (∀ parsed, body ≠ EmptyString →
                       parseError body (headerInfo_of response) = inr parsed →
                       e = parsed))
  ∧ (code fallback, s3_message fallback) = status_code_message (statusCode response)
  ∧ (headersSent response = false →
     s3_headerInfo fallback
     = {| amzRequestid := None; amzId2 := None; amzBucketRegion := None |})
  ∧ (headersSent response = true →
     s3_headerInfo fallback
     = {| amzRequestid := Some (getHeader response "x-amz-request-id");
          amzId2 := Some (getHeader response "x-amz-id-2");
          amzBucketRegion := Some (getHeader response "x-amz-bucket-region") |}).
Proof.
  cbn zeta. unfold getErrorTransformer. rewrite run_getConcater.
  cbn [getConcater stream_flush].
  rewrite pushed_app, throws_app, pushed_callbacks, throws_callbacks.
  unfold error_parser.
  split; [|split; [|split; [|split; [|split]]]].
  - destruct (toString (concat chunks)); [done|].
    by destruct (parseError _ _).
  - destruct (toString (concat chunks)); [done|].
    by destruct (parseError _ _).
  - destruct (toString (concat chunks)) as [|c body] eqn:Hb.
    + eexists. split; [done|].
      rewrite errors_of_app, errors_of_callbacks. by repeat split.
    + destruct (parseError _ _) as [ex|parsed] eqn:Hp.
      * eexists. split; [done|].
        rewrite errors_of_app, errors_of_callbacks. repeat split; try done.
      * eexists. split; [done|].
        rewrite errors_of_app, errors_of_callbacks. repeat split; try done.
        intros parsed' _ Hp'. congruence.
  - unfold getError. by destruct (status_code_message _).
  - intros Hs. unfold getError, headerInfo_of.
    destruct (status_code_message _). cbn. by rewrite Hs.
  - intros Hs. unfold getError, headerInfo_of.
    destruct (status_code_message _). cbn. by rewrite Hs.
Qed.

(** X12. The stream of [getHashSummer] pushes one object at its end,
    also when no chunk was written: with SHA256 its [sha256sum] is the
    hex SHA256 of the chunks in their order and its [md5sum] is empty,
    without SHA256 its [md5sum] is the base64 MD5 of the chunks and its
    [sha256sum] is empty. The digest does not depend on how the data was
    cut into chunks. *)
Theorem hash_summer_digest_of_all_chunks
    (md5 sha256 : Buffer → Buffer) (hex base64 : Buffer → string)
    (enableSHA256 : bool) (chunks : list Buffer) :
  let data : Buffer := concat chunks in
  let hashData :=
    if enableSHA256
    then {| md5sum := EmptyString; sha256sum := hex (sha256 data) |}
    else {| md5sum := base64 (md5 data); sha256sum := EmptyString |} in
  run (getHashSummer md5 sha256 hex base64 enableSHA256) chunks =
  repeat (Callback None) (length chunks)
  ++ [Push (inr hashData); PushNull; Callback None]
  ∧ (∀ chunks' : list Buffer,
       concat chunks' = data →
       pushed (run (getHashSummer md5 sha256 hex base64 enableSHA256) chunks')
       = [inr hashData]).
Proof.
  cbn zeta.
  assert (Hrun : ∀ cs : list Buffer,
    run (getHashSummer md5 sha256 hex base64 enableSHA256) cs =
    repeat (Callback None) (length cs)
    ++ [Push (inr (if enableSHA256
                   then {| md5sum := EmptyString;
                           sha256sum := hex (sha256 (concat cs)) |}
                   else {| md5sum := base64 (md5 (concat cs));
                           sha256sum := EmptyString |}));
        PushNull; Callback None]).
  { intros cs. unfold run. cbn [getHashSummer stream_transform stream_flush state].
    destruct enableSHA256.
    - rewrite (through_callbacks
                 (λ h chunk, {| md5_fed := md5_fed h;
                                sha256_fed := sha256_fed h ++ chunk |})).
      do 4 f_equal.
      assert (H : ∀ h, sha256_fed (foldl (λ h chunk,
                          {| md5_fed := md5_fed h;
                             sha256_fed := sha256_fed h ++ chunk |}) h cs)
                       = sha256_fed h ++ concat cs).
      { induction cs as [|c cs IH]; intros h; cbn; [by rewrite app_nil_r|].
        rewrite IH. cbn. by rewrite <- app_assoc. }
      by rewrite H.
    - rewrite (through_callbacks
                 (λ h chunk, {| md5_fed := md5_fed h ++ chunk;
                                sha256_fed := sha256_fed h |})).
      do 4 f_equal.
      assert (H : ∀ h, md5_fed (foldl (λ h chunk,
                          {| md5_fed := md5_fed h ++ chunk;
                             sha256_fed := sha256_fed h |}) h cs)
                       = md5_fed h ++ concat cs).
      { induction cs as [|c cs IH]; intros h; cbn; [by rewrite app_nil_r|].
        rewrite IH. cbn. by rewrite <- app_assoc. }
      by rewrite H. }
  split; [apply Hrun|].
  intros chunks' Heq. rewrite Hrun, pushed_app, pushed_callbacks, Heq. done.
Qed.

(** * The client *)

Section ClientProofs.

Import TypedClient.

Context {Transport Agent CredentialProvider : Type}.
Context (http https : Transport) (http_globalAgent https_globalAgent : Agent).
Context (platform arch : string).
Context (String_of : ∀ A : Type, A → string).
Context (toLowerCase : string → string).
Context (isValidEndpoint : string → bool) (isValidPort : Z → bool).
Context (isObject : ∀ A : Type, A → bool).
Context (isEmpty : option string → bool).
Context (isDefined : HeaderValue → bool).
Context (isVirtualHostStyle : string → string → string → bool → bool).
Context (uriResourceEscape : string → string).
Context (isAmazonEndpoint : string → bool).
Context (getS3Endpoint : option string → string).

Local Abbreviation new_client :=
  (TypedClient.constructor (CredentialProvider := CredentialProvider)
     http https http_globalAgent https_globalAgent platform arch String_of
     toLowerCase isValidEndpoint isValidPort isObject).
Local Abbreviation request_options :=
  (TypedClient.getRequestOptions
     (Transport := Transport) (CredentialProvider := CredentialProvider)
     toLowerCase isEmpty isDefined isVirtualHostStyle uriResourceEscape
     isAmazonEndpoint getS3Endpoint).

Ltac split_in H :=
  match type of H with
  | context [match ?x with _ => _ end] =>
    lazymatch x with
    | context [match _ with _ => _ end] => fail
    | _ => destruct x eqn:?
    end
  end.

Ltac construct H :=
  unfold TypedClient.constructor in H;
  repeat (split_in H; cbn [fst snd] in H);
  simplify_eq; cbn.

(** What the constructor returns, field by field. *)
Lemma constructor_returns (params : ClientOptions) (client : TypedClient) :
  new_client params = inr client →
  let useSSL := default true (params_useSSL params) in
  let given_port := default 0%Z (params_port params) in
  let size :=
    match params_partSize params with
    | Some size => if (size =? 0)%Z then (64 * 1024 * 1024)%Z else size
    | None => (64 * 1024 * 1024)%Z
    end in
  params_secure params = None
  ∧ isValidEndpoint (params_endPoint params) = true
  ∧ isValidPort given_port = true
  ∧ partSize client = size
  ∧ (5 * 1024 * 1024 ≤ size ≤ 5 * 1024 * 1024 * 1024)%Z
  ∧ overRidePartSize client =
    match params_partSize params with
    | Some size => negb (size =? 0)%Z
    | None => false
    end
  ∧ host client = toLowerCase (params_endPoint params)
  ∧ protocol client = (if useSSL then "https:" else "http:")
  ∧ port client =
    (if (given_port =? 0)%Z then if useSSL then 443%Z else 80%Z else given_port)
  ∧ transportAgent client =
    match params_transportAgent params with
    | Some custom => custom
    | None => if useSSL then https_globalAgent else http_globalAgent
    end
  ∧ accessKey client = default EmptyString (params_accessKey params)
  ∧ secretKey client = default EmptyString (params_secretKey params)
  ∧ anonymous client =
    not_string (accessKey client) || not_string (secretKey client)
  ∧ enableSHA256 client = negb (anonymous client) && negb useSSL
  ∧ reqOptions client = ∅.
Proof.
  intros H. cbn zeta. construct H.
  all: repeat match goal with
              | H : negb _ = false |- _ => apply negb_false_iff in H
              end.
  all: repeat split; try done; lia.
Qed.

(** X13. A client that was constructed has a part size between 5 MiB and
    5 GiB: the one that was given, or 64 MiB when none or 0 was given;
    and the constructor throws where a part size outside these bounds is
    given. *)
Theorem client_part_size_within_bounds
    (params : ClientOptions) (client : TypedClient) :
  new_client params = inr client →
  (5 * 1024 * 1024 ≤ partSize client ≤ 5 * 1024 * 1024 * 1024)%Z
  ∧ partSize client =
    match params_partSize params with
    | Some size => if (size =? 0)%Z then (64 * 1024 * 1024)%Z else size
    | None => (64 * 1024 * 1024)%Z
    end
  ∧ (overRidePartSize client = true ↔
     ∃ size, params_partSize params = Some size ∧ size ≠ 0%Z)
  ∧ (∀ (params' : ClientOptions) size,
       params_partSize params' = Some size → size ≠ 0%Z →
       (size < 5 * 1024 * 1024 ∨ 5 * 1024 * 1024 * 1024 < size)%Z →
       ∃ ex, new_client params' = inl ex).
Proof.
  intros H. apply constructor_returns in H. cbn zeta in H.
  destruct H as (_ & _ & _ & Hsize & Hbounds & Hover & _).
  split; [by rewrite Hsize|]. split; [done|]. split.
  - rewrite Hover. destruct (params_partSize params) as [size|]; split.
    + intros Hn. exists size. split; [done|]. intros ->. done.
    + intros (size' & ? & Hn). simplify_eq.
      by destruct (Z.eqb_spec size' 0).
    + done.
    + by intros (size' & ? & _).
  - intros params' size Hs Hn Hb.
    destruct (new_client params') as [ex|c] eqn:H; [by eexists|].
    exfalso. apply constructor_returns in H. cbn zeta in H.
    destruct H as (_ & _ & _ & _ & Hbounds' & _). rewrite Hs in Hbounds'.
    destruct (Z.eqb_spec size 0); [done|]. lia.
Qed.


(** X14. A client that was constructed signs with SHA256 exactly when it
    has an access key and a secret key and [useSSL] was given as false;
    it is anonymous exactly when a key is missing or empty; it speaks
    https unless [useSSL] was given as false. *)
Theorem client_sha256_only_over_http
    (params : ClientOptions) (client : TypedClient) :
  new_client params = inr client →
  (enableSHA256 client = true ↔
   params_useSSL params = Some false
   ∧ accessKey client ≠ EmptyString ∧ secretKey client ≠ EmptyString)
  ∧ (anonymous client = false ↔
     (∃ c k, params_accessKey params = Some (String c k))
     ∧ (∃ c k, params_secretKey params = Some (String c k)))
  ∧ (protocol client = "https:" ↔ params_useSSL params ≠ Some false)
  ∧ (protocol client = "http:" ↔ params_useSSL params = Some false).
Proof.
  intros H. apply constructor_returns in H. cbn zeta in H.
  destruct H as (_ & _ & _ & _ & _ & _ & _ & Hprot & _ & _ & Ha & Hs & Hanon
                 & Hsha & _).
  rewrite Hsha, Hprot, Hanon, Ha, Hs.
  destruct (params_useSSL params) as [[|]|];
    destruct (params_accessKey params) as [[|c1 k1]|];
    destruct (params_secretKey params) as [[|c2 k2]|]; cbn.
  all: repeat split; try done; try (intros (? & ? & ?); done).
  all: try (intros [(? & ? & ?) (? & ? & ?)]; done).
  all: by eexists _, _.
Qed.

(** X15. A client that was constructed has a port that is not 0: the
    one that was given, or 443 for https and 80 for http when none or 0
    was given. *)
Theorem client_port_defaults (params : ClientOptions) (client : TypedClient) :
  new_client params = inr client →
  port client ≠ 0%Z
  ∧ (∀ p, params_port params = Some p → p ≠ 0%Z → port client = p)
  ∧ (params_port params = None ∨ params_port params = Some 0%Z →
     port client = if default true (params_useSSL params) then 443%Z else 80%Z).
Proof.
  intros H. apply constructor_returns in H. cbn zeta in H.
  destruct H as (_ & _ & _ & _ & _ & _ & _ & _ & Hport & _).
  rewrite Hport. split; [|split].
  - destruct (Z.eqb_spec (default 0%Z (params_port params)) 0); [|done].
    by destruct (default true (params_useSSL params)).
  - intros p -> Hp. cbn. by destruct (Z.eqb_spec p 0).
  - by intros [->| ->].
Qed.

Local Abbreviation Client_t :=
  (@TypedClient.TypedClient Transport Agent CredentialProvider).

Local Abbreviation host_path :=
  (TypedClient.request_host_path
     (Transport := Transport) (Agent := Agent)
     (CredentialProvider := CredentialProvider)
     isEmpty isVirtualHostStyle uriResourceEscape isAmazonEndpoint
     getS3Endpoint).

(** What [getRequestOptions] returns, for the host and the path it has
    made. *)
Lemma request_options_returns
    (this : Client_t) (opts : RequestOption) (r : gmap string (Value Agent)) :
  request_options this opts = inr r →
  ∃ hst pth,
    host_path this opts = inr (hst, pth)
    ∧ r = <["path" := VString pth]>
          (<["port" := from_option VNumber VUndefined (request_port this)]>
          (<["host" := VString hst]>
          (<["headers" :=
               VHeaders (header_toString <$>
                         filter (λ kv, isDefined kv.2 = true)
                                (request_headers toLowerCase this opts hst))]>
           ({[ "method" := VString (opts_method opts);
               "protocol" := VString (protocol this);
               "agent" := VAgent (transportAgent this) ]}
            ∪ reqOptions this)))).
Proof.
  unfold getRequestOptions.
  destruct (host_path this opts) as [ex|[hst pth]]; [done|].
  intros H. simplify_eq. by eexists _, _.
Qed.

Lemma pick_lookup (options : gmap string (Value Agent)) keys k :
  pick options keys !! k = if decide (k ∈ keys) then options !! k else None.
Proof.
  unfold pick. destruct (decide (k ∈ keys)) as [Hin|Hout].
  - destruct (options !! k) as [v|] eqn:Hk.
    + by apply map_lookup_filter_Some.
    + apply map_lookup_filter_None. by left.
  - apply map_lookup_filter_None. right. by intros v _.
Qed.

(** X16. The options that [setRequestOptions] keeps are those of its
    list and no other. Of these, [getRequestOptions] hands on all but
    the agent: the agent of a request is the transport agent of the
    client, whatever agent was set with [setRequestOptions]. *)
Theorem request_agent_is_the_transport_agent
    (client client' : Client_t) (options : gmap string (Value Agent))
    (opts : RequestOption) (r : gmap string (Value Agent)) :
  setRequestOptions isObject client options = inr client' →
  request_options client' opts = inr r →
  r !! "agent" = Some (VAgent (transportAgent client))
  ∧ (∀ k, k ∈ requestOptionProperties → k ≠ "agent" → r !! k = options !! k)
  ∧ (∀ k, k ∉ requestOptionProperties →
          k ∉ ["method"; "headers"; "protocol"; "host"; "port"; "path"] →
          r !! k = None)
  ∧ reqOptions client' = pick options requestOptionProperties.
Proof.
  intros Hset Hreq. unfold setRequestOptions in Hset.
  destruct (negb (isObject _ options)); [done|]. simplify_eq.
  apply request_options_returns in Hreq as (hst & pth & _ & ->).
  cbn [set_reqOptions reqOptions transportAgent protocol].
  split; [by simplify_map_eq|]. split; [|split; [|done]].
  - intros k Hk Hagent.
    assert (Hp : pick options requestOptionProperties !! k = options !! k).
    { rewrite pick_lookup.
      by destruct (decide (k ∈ requestOptionProperties)). }
    unfold requestOptionProperties in Hk.
    repeat (apply elem_of_cons in Hk as [->|Hk];
            [first [done|rewrite !lookup_insert_ne by done;
                         rewrite lookup_union_r; [done|by simplify_map_eq]]|]).
    by apply elem_of_nil in Hk.
  - intros k Hk Hcomputed.
    assert (Hp : pick options requestOptionProperties !! k = None).
    { rewrite pick_lookup.
      by destruct (decide (k ∈ requestOptionProperties)). }
    assert (k ≠ "agent").
    { intros ->. apply Hk. unfold requestOptionProperties. by left. }
    rewrite !not_elem_of_cons in Hcomputed.
    destruct Hcomputed as (? & ? & ? & ? & ? & ? & _).
    rewrite !lookup_insert_ne by done.
    rewrite lookup_union_r; [done|by simplify_map_eq].
Qed.

(** ** The headers of a request *)

Lemma lower_case_headers_cons kv hs (acc : gmap string HeaderValue) :
  lower_case_headers toLowerCase (kv :: hs) acc =
  lower_case_headers toLowerCase hs (<[toLowerCase kv.1 := kv.2]> acc).
Proof. done. Qed.

Lemma lower_case_headers_other hs : ∀ (acc : gmap string HeaderValue) k,
  (∀ kv, kv ∈ hs → toLowerCase kv.1 ≠ k) →
  lower_case_headers toLowerCase hs acc !! k = acc !! k.
Proof.
  induction hs as [|kv hs IH]; intros acc k Hk; [done|].
  rewrite lower_case_headers_cons, IH.
  - apply lookup_insert_ne. apply Hk. by left.
  - intros kv' Hin. apply Hk. by right.
Qed.

Lemma lower_case_headers_last before k v after (acc : gmap string HeaderValue) :
  (∀ kv, kv ∈ after → toLowerCase kv.1 ≠ toLowerCase k) →
  lower_case_headers toLowerCase (before ++ (k, v) :: after) acc
  !! toLowerCase k = Some v.
Proof.
  intros Hafter. revert acc.
  induction before as [|kv before IH]; intros acc; cbn [app].
  - rewrite lower_case_headers_cons, lower_case_headers_other by done.
    apply lookup_insert_eq.
  - rewrite lower_case_headers_cons. apply IH.
Qed.

Lemma lower_case_headers_keys hs : ∀ (acc : gmap string HeaderValue) k,
  is_Some (lower_case_headers toLowerCase hs acc !! k) →
  is_Some (acc !! k) ∨ ∃ kv, kv ∈ hs ∧ k = toLowerCase kv.1.
Proof.
  induction hs as [|kv hs IH]; intros acc k Hk; [by left|].
  rewrite lower_case_headers_cons in Hk.
  apply IH in Hk as [Hk|(kv' & Hin & ->)].
  - destruct (decide (toLowerCase kv.1 = k)) as [<-|Hne].
    + right. exists kv. split; [by left|done].
    + left. by rewrite lookup_insert_ne in Hk.
  - right. exists kv'. split; [by right|done].
Qed.

Lemma strings_lookup (h : gmap string HeaderValue) k :
  (header_toString <$> filter (λ kv, isDefined kv.2 = true) h) !! k =
  match h !! k with
  | Some v => if isDefined v then Some (header_toString v) else None
  | None => None
  end.
Proof.
  rewrite lookup_fmap. destruct (h !! k) as [v|] eqn:Hk.
  - destruct (isDefined v) eqn:Hd.
    + erewrite (proj2 (map_lookup_filter_Some _ _ _ _)); [done|]. by split.
    + rewrite (proj2 (map_lookup_filter_None _ _ _)); [done|].
      right. intros v' ?. simplify_eq. cbn. by rewrite Hd.
  - rewrite (proj2 (map_lookup_filter_None _ _ _)); [done|]. by left.
Qed.

(** X17. The names of the headers of a request are in lower case: a
    header that [getRequestOptions] returns is [host], [user-agent] or a
    header of the caller under its name in lower case. Where names of the
    caller's headers differ in case only, the last one in the order of
    the entries is the one that is sent, and a header of the caller named
    [Host] or [User-Agent], in any case, replaces the one that was
    computed. *)
Theorem request_header_names_lower_case
    (client : Client_t) (opts : RequestOption) (r : gmap string (Value Agent)) :
  request_options client opts = inr r →
  ∃ h, r !! "headers" = Some (VHeaders h)
       ∧ (∀ k, is_Some (h !! k) →
               k = "host" ∨ k = "user-agent"
               ∨ ∃ hs kv, opts_headers opts = Some hs ∧ kv ∈ hs
                          ∧ k = toLowerCase kv.1)
       ∧ (∀ before k v after,
            opts_headers opts = Some (before ++ (k, v) :: after) →
            (∀ kv, kv ∈ after → toLowerCase kv.1 ≠ toLowerCase k) →
            h !! toLowerCase k =
            if isDefined v then Some (header_toString v) else None).
Proof.
  intros Hreq.
  apply request_options_returns in Hreq as (hst & pth & _ & ->).
  eexists. split; [by simplify_map_eq|]. split.
  - intros k. rewrite strings_lookup. unfold request_headers.
    destruct (opts_headers opts) as [hs|].
    + destruct (lower_case_headers _ _ _ !! k) as [v|] eqn:Hk;
        [|by intros [? ?]].
      intros _.
      destruct (lower_case_headers_keys hs _ k (mk_is_Some _ _ Hk))
        as [Hc|(kv & Hin & ->)].
      * destruct (decide (k = "user-agent")) as [->|?]; [by auto|].
        destruct (decide (k = "host")) as [->|?]; [by auto|].
        rewrite lookup_insert_ne, lookup_singleton_ne in Hc by done.
        by destruct Hc.
      * right. right. by exists hs, kv.
    + destruct (decide (k = "user-agent")) as [->|?]; [by auto|].
      destruct (decide (k = "host")) as [->|?]; [by auto|].
      rewrite lookup_insert_ne, lookup_singleton_ne by done. by intros [? ?].
  - intros before k v after Hh Hafter. rewrite strings_lookup.
    unfold request_headers. rewrite Hh.
    by rewrite lower_case_headers_last.
Qed.

(** X18. For a client that was constructed, [getRequestOptions] returns
    the port of the client, and its [host] header is the host it returns
    when the port is the one of the protocol, 443 for https and 80 for
    http, and the host, a colon and the port otherwise; unless the caller
    has a header of that name. *)
Theorem host_header_has_the_port_unless_default
    (params : ClientOptions) (client : Client_t) (opts : RequestOption)
    (r : gmap string (Value Agent)) :
  new_client params = inr client →
  request_options client opts = inr r →
  (∀ hs kv, opts_headers opts = Some hs → kv ∈ hs → toLowerCase kv.1 ≠ "host") →
  ∃ hst h,
    let default_port :=
      if default true (params_useSSL params) then 443%Z else 80%Z in
    let host_header :=
      if (port client =? default_port)%Z then hst
      else hst +:+ ":" +:+ pretty (port client) in
    r !! "host" = Some (VString hst)
    ∧ r !! "port" = Some (VNumber (port client))
    ∧ r !! "headers" = Some (VHeaders h)
    ∧ h !! "host" =
      if isDefined (HStr host_header) then Some host_header else None.
Proof.
  intros Hnew Hreq Hcaller.
  apply constructor_returns in Hnew. cbn zeta in Hnew.
  destruct Hnew as (_ & _ & _ & _ & _ & _ & _ & Hprot & Hport & _).
  apply request_options_returns in Hreq as (hst & pth & _ & ->).
  assert (Hnz : port client ≠ 0%Z).
  { rewrite Hport.
    destruct (Z.eqb_spec (default 0%Z (params_port params)) 0); [|done].
    by destruct (default true (params_useSSL params)). }
  assert (Hrp : request_port client = Some (port client)).
  { unfold request_port. by destruct (Z.eqb_spec (port client) 0). }
  exists hst. eexists. cbn zeta.
  split; [by simplify_map_eq|]. split; [rewrite Hrp; by simplify_map_eq|].
  split; [by simplify_map_eq|].
  rewrite strings_lookup. unfold request_headers. rewrite Hrp, Hprot.
  assert (Hcomputed : ∀ v : HeaderValue,
            match opts_headers opts with
            | Some headers =>
              lower_case_headers toLowerCase headers
                (<["user-agent" := HStr (userAgent client)]> {[ "host" := v ]})
            | None => <["user-agent" := HStr (userAgent client)]> {[ "host" := v ]}
            end !! "host" = Some v).
  { intros v. destruct (opts_headers opts) as [hs|] eqn:Hh.
    - rewrite lower_case_headers_other by (intros kv; by apply Hcaller).
      by simplify_map_eq.
    - by simplify_map_eq. }
  rewrite Hcomputed.
  destruct (default true (params_useSSL params)); cbn.
  - destruct (Z.eqb_spec (port client) 443) as [->|Hne].
    + by rewrite bool_decide_eq_true_2.
    + rewrite bool_decide_eq_false_2 by congruence. done.
  - destruct (Z.eqb_spec (port client) 80) as [->|Hne].
    + by rewrite bool_decide_eq_true_2.
    + rewrite bool_decide_eq_false_2 by congruence. done.
Qed.


End ClientProofs.

(** * The client and the uploader *)

(** X20. The uploader of a client that was constructed without [useSSL]
    given as false, a client that does not sign with SHA256, sends with
    every request that carries a chunk the base64 MD5 of the chunk as
    Content-MD5. *)
Theorem https_client_uploads_with_content_md5
    {Transport Agent CredentialProvider : Type}
    (http https : Transport) (http_globalAgent https_globalAgent : Agent)
    (platform arch : string) (String_of : ∀ A : Type, A → string)
    (toLowerCase : string → string)
    (isValidEndpoint : string → bool) (isValidPort : Z → bool)
    (isObject : ∀ A : Type, A → bool)
    (params : TypedClient.ClientOptions)
    (typed : @TypedClient.TypedClient Transport Agent CredentialProvider)
    (md5 : Buffer → Buffer) (hex base64 : Buffer → string)
    (sanitizeETag : option string → string)
    (getVersionId : gmap string string → option string)
    (client : Client) (bucketName objectName : string)
    (partSize : nat) (metaData : Headers)
    (fuel : nat) (chunks : list Buffer) :
  TypedClient.constructor
    http https http_globalAgent https_globalAgent platform arch String_of
    toLowerCase isValidEndpoint isValidPort isObject params = inr typed →
  TypedClient.params_useSSL params ≠ Some false →
  enableSHA256 client = TypedClient.enableSHA256 typed →
  Forall (content_md5 md5 base64)
         (trace (snd (write md5 hex base64 sanitizeETag getVersionId client
                            bucketName objectName partSize metaData
                            fuel chunks constructor))).
Proof.
  intros Hnew Hssl Hclient. apply write_content_md5.
  apply constructor_returns in Hnew. cbn zeta in Hnew.
  destruct Hnew as (_ & _ & _ & _ & _ & _ & _ & _ & _ & _ & _ & _ & _ & Hsha & _).
  rewrite Hclient, Hsha.
  destruct (TypedClient.params_useSSL params) as [[|]|]; try done.
  all: by rewrite andb_false_r.
Qed.

(** * The claims on runs of the small clients *)

(** A full chunk and a short one: the session is created, the two parts
    are uploaded and the upload is completed with both. *)
Example two_chunks_example :
  count is_initiate (trace (Toy.upload Toy.fresh 2 2 [Toy.xy; Toy.x])) = 1
  ∧ count (is_uploadPart_of 1) (trace (Toy.upload Toy.fresh 2 2 [Toy.xy; Toy.x])) = 1
  ∧ count (is_uploadPart_of 2) (trace (Toy.upload Toy.fresh 2 2 [Toy.xy; Toy.x])) = 1
  ∧ count is_uploadPart (trace (Toy.upload Toy.fresh 2 2 [Toy.xy; Toy.x])) = 2
  ∧ List.filter is_complete (trace (Toy.upload Toy.fresh 2 2 [Toy.xy; Toy.x]))
    = [ EvCompleteMultipartUpload "b" "o" "id1"
          [ {| part := 1; etag := Some "e" |};
            {| part := 2; etag := Some "e" |} ]
          (inr "done") ]
  ∧ List.filter is_result (trace (Toy.upload Toy.fresh 2 2 [Toy.xy; Toy.x]))
    = [ EvCallback (CbEtag "done") ].
Proof. vm_compute. repeat split; reflexivity. Qed.

(** C1, on a run: the first chunk of the resumed upload is the recorded
    part 1 and is not sent, the second is not the recorded part 2 and is
    sent once. *)
Lemma resumed_part_witness :
  count (is_uploadPart_of 1)
        (trace (Toy.upload Toy.resuming 2 2 [Toy.xy; Toy.zw])) = 0
  ∧ count (is_uploadPart_of 2)
          (trace (Toy.upload Toy.resuming 2 2 [Toy.xy; Toy.zw])) = 1.
Proof.
  split.
  - destruct (resumed_part_skipped_or_uploaded_once
                Toy.md5 Toy.hex Toy.base64 Toy.sanitizeETag Toy.getVersionId
                Toy.resuming "b" "o" 2 ∅ 2 [] Toy.xy [Toy.zw] constructor
                (build_oldParts (Some Toy.listing)))
      as [Hskip _].
    + reflexivity.
    + vm_compute. reflexivity.
    + vm_compute. reflexivity.
    + destruct Hskip as (_ & Hnone & _); [|exact Hnone].
      exists {| part := 1; etag := Some "xy" |}.
      split; vm_compute; reflexivity.
  - destruct (resumed_part_skipped_or_uploaded_once
                Toy.md5 Toy.hex Toy.base64 Toy.sanitizeETag Toy.getVersionId
                Toy.resuming "b" "o" 2 ∅ 2 [Toy.xy] Toy.zw []
                (snd (Toy.write Toy.resuming 2 2 [Toy.xy] constructor))
                (build_oldParts (Some Toy.listing)))
      as [_ Hup].
    + vm_compute. reflexivity.
    + vm_compute. reflexivity.
    + vm_compute. reflexivity.
    + destruct Hup as (_ & Hone); [|exact Hone].
      intros (old & Hold & Hetag). vm_compute in Hold.
      injection Hold as <-. discriminate Hetag.
Defined.

(** C2, on a run of three chunks. *)
Lemma completed_parts_witness :
  map part (etags (this (Toy.upload Toy.fresh 2 2 [Toy.xy; Toy.zw; Toy.x])))
  = [1; 2; 3]
  ∧ Forall (carries [Toy.xy; Toy.zw; Toy.x])
           (trace (Toy.upload Toy.fresh 2 2 [Toy.xy; Toy.zw; Toy.x])).
Proof.
  destruct (completed_parts_numbered_in_order
              Toy.md5 Toy.hex Toy.base64 Toy.sanitizeETag Toy.getVersionId
              Toy.fresh "b" "o" 2 ∅ 2 [Toy.xy; Toy.zw; Toy.x] "b" "o" "id1"
              [ {| part := 1; etag := Some "e" |};
                {| part := 2; etag := Some "e" |};
                {| part := 3; etag := Some "e" |} ]
              (inr "done"))
    as (Hparts & Hseq & _ & _ & Hcarries).
  - vm_compute. repeat (first [left; reflexivity | right]).
  - split; [|exact Hcarries]. unfold Toy.upload. rewrite <- Hparts. exact Hseq.
Defined.

(** C3, on a run of one short chunk. *)
Lemma single_short_chunk_witness :
  count is_uploadWhole (trace (Toy.upload Toy.fresh 2 1 [Toy.x])) = 1
  ∧ count is_multipart (trace (Toy.upload Toy.fresh 2 1 [Toy.x])) = 0
  ∧ id (this (Toy.upload Toy.fresh 2 1 [Toy.x])) = None.
Proof.
  destruct (single_short_chunk_one_put
              Toy.md5 Toy.hex Toy.base64 Toy.sanitizeETag Toy.getVersionId
              Toy.fresh "b" "o" 2 ∅ 1 Toy.x)
    as (_ & _ & Hone & Hnone & Hid).
  - lia.
  - cbn. lia.
  - exact (conj Hone (conj Hnone Hid)).
Defined.

(** C3 as it is stated fails on two short chunks: each is PUT as a whole
    object; and on a short chunk followed by a full one, which opens a
    session. *)
Lemma short_first_chunk_counterexample :
  length Toy.x < 2
  ∧ count is_uploadWhole (trace (Toy.upload Toy.fresh 2 2 [Toy.x; Toy.x])) = 2
  ∧ id (this (Toy.upload Toy.fresh 2 2 [Toy.x; Toy.xy])) = Some "id1".
Proof. vm_compute. repeat split. lia. Qed.

(** C4, on a run whose second part fails. *)
Lemma failed_call_witness :
  drop 7 (trace (Toy.upload Toy.failing 2 2 [Toy.xy; Toy.zw; Toy.x]))
  = [EvCallback (CbError (MkError "reset"))]
  ∧ count is_error
          (trace (Toy.upload Toy.failing 2 2 [Toy.xy; Toy.zw; Toy.x])) = 1.
Proof.
  destruct (failed_call_stops_the_upload
              Toy.md5 Toy.hex Toy.base64 Toy.sanitizeETag Toy.getVersionId
              Toy.failing "b" "o" 2 ∅ 2 [Toy.xy; Toy.zw; Toy.x]
              (take 6 (trace (Toy.upload Toy.failing 2 2 [Toy.xy; Toy.zw; Toy.x])))
              (default (EvHash [])
                 (trace (Toy.upload Toy.failing 2 2 [Toy.xy; Toy.zw; Toy.x]) !! 6))
              (drop 7 (trace (Toy.upload Toy.failing 2 2 [Toy.xy; Toy.zw; Toy.x])))
              (MkError "reset"))
    as (Hrest & Honce & _).
  - vm_compute. reflexivity.
  - vm_compute. reflexivity.
  - exact (conj Hrest Honce).
Defined.

(** C5 as it is stated fails on a run of one short chunk: no session is
    created and none is adopted. *)
Lemma no_session_counterexample :
  count is_initiate (trace (Toy.upload Toy.fresh 2 2 [Toy.x]))
  + count is_listParts (trace (Toy.upload Toy.fresh 2 2 [Toy.x])) = 0.
Proof. vm_compute. reflexivity. Qed.

(** C5, on a run of a short chunk and two parts: the session is created
    once, and the chunk that finds no session is the first that is not
    short. *)
Lemma one_session_witness :
  count is_initiate (trace (Toy.upload Toy.fresh 2 2 [Toy.x; Toy.xy; Toy.zw]))
  + count is_listParts (trace (Toy.upload Toy.fresh 2 2 [Toy.x; Toy.xy; Toy.zw]))
  = 1
  ∧ Forall (λ c, short 2 c = true) [Toy.x]
  ∧ short 2 Toy.xy = false.
Proof.
  destruct (one_session_per_run
              Toy.md5 Toy.hex Toy.base64 Toy.sanitizeETag Toy.getVersionId
              Toy.fresh "b" "o" 2 ∅ 2 [Toy.x; Toy.xy; Toy.zw])
    as (_ & _ & _ & _ & Hone & Hfirst).
  split.
  - apply Hone. vm_compute. eexists. reflexivity.
  - apply (Hfirst [Toy.x] Toy.xy [Toy.zw]
                  (snd (Toy.write Toy.fresh 2 2 [Toy.x] constructor))).
    + reflexivity.
    + vm_compute. reflexivity.
    + vm_compute. lia.
Defined.

(** C8, on a part whose etag comes back with a quote in front only. *)
Lemma part_etag_witness :
  etags (this (snd (Toy.transform Toy.one_quote 2 2 Toy.xy constructor)))
  = [{| part := 1; etag := Some "abc" |}].
Proof.
  destruct (part_etag_quotes_removed
              Toy.md5 Toy.hex Toy.base64 Toy.sanitizeETag Toy.getVersionId
              Toy.one_quote "b" "o" 2 ∅ 2 Toy.xy constructor
              (Toy.part_options 1 "id1" Toy.xy) Toy.xy
              (Toy.answer (String dquote "abc")) 1 "id1")
    as (Hetags & _).
  - vm_compute. repeat (first [left; reflexivity | right]).
  - reflexivity.
  - unfold Toy.transform. rewrite Hetags. vm_compute. reflexivity.
Defined.

(** C8 as it is stated fails there: the quote in front is removed though
    none stands at the end. *)
Lemma one_sided_quote_counterexample :
  etags (this (Toy.upload Toy.one_quote 2 2 [Toy.xy]))
  = [{| part := 1; etag := Some "abc" |}]
  ∧ strip_enclosing_quotes (String dquote "abc") = String dquote "abc".
Proof. vm_compute. split; reflexivity. Qed.

(** C9, on an empty first chunk. *)
Lemma zero_length_chunk_witness :
  count is_uploadWhole (trace (snd (Toy.transform Toy.fresh 2 1 [] constructor)))
  = 1
  ∧ emptyStream (this (snd (Toy.write Toy.fresh 2 1 [[]] constructor))) = false.
Proof.
  destruct (zero_length_first_chunk
              Toy.md5 Toy.hex Toy.base64 Toy.sanitizeETag Toy.getVersionId
              Toy.fresh "b" "o" 2 ∅ 1 [])
    as (_ & Htrace & Hflush).
  - lia.
  - lia.
  - reflexivity.
  - split.
    + unfold Toy.transform. rewrite Htrace. vm_compute. reflexivity.
    + destruct (Hflush [] [] (fst (Toy.write Toy.fresh 2 1 [[]] constructor))
                       (snd (Toy.write Toy.fresh 2 1 [[]] constructor)))
        as [Hempty _]; [vm_compute; reflexivity|exact Hempty].
Defined.

(** C10, on the first chunk of a resumed upload with SHA256: it is hashed
    once, for the comparison, and skipped. *)
Lemma chunk_hashed_witness :
  count is_hash (emitted (Toy.transform Toy.resuming 2 2 Toy.xy) constructor) = 1
  ∧ count is_uploadPart
          (emitted (Toy.transform Toy.resuming 2 2 Toy.xy) constructor) = 0.
Proof.
  destruct (chunk_hashed_once_per_call
              Toy.md5 Toy.hex Toy.base64 Toy.sanitizeETag Toy.getVersionId
              Toy.resuming "b" "o" 2 ∅ 2 Toy.xy constructor)
    as (_ & _ & _ & _ & _ & Hlazy & Hskip).
  split.
  - apply Hlazy; [reflexivity|]. split; [vm_compute; reflexivity|].
    vm_compute. eexists. reflexivity.
  - apply (Hskip (build_oldParts (Some Toy.listing))).
    + vm_compute. reflexivity.
    + vm_compute. reflexivity.
    + exists {| part := 1; etag := Some "xy" |}.
      split; vm_compute; reflexivity.
Defined.

(** C10 as it is stated fails on the chunk that finds no session: it is
    hashed for the first call of [_transform] and again for the second. *)
Lemma hashed_twice_counterexample :
  List.filter is_hash (trace (Toy.upload Toy.fresh 2 2 [Toy.xy]))
  = [EvHash Toy.xy; EvHash Toy.xy].
Proof. vm_compute. reflexivity. Qed.

(** * More runs of the small clients *)

(** X4, on a run whose second part fails and on one that completes. *)
Lemma one_outcome_witness :
  count is_result (trace (Toy.upload Toy.failing 2 2 [Toy.xy; Toy.zw; Toy.x]))
  + count is_error (trace (Toy.upload Toy.failing 2 2 [Toy.xy; Toy.zw; Toy.x]))
  = 1
  ∧ count is_result (trace (Toy.upload Toy.fresh 2 2 [Toy.xy; Toy.x])) = 1.
Proof.
  split.
  - destruct (one_outcome_per_upload
                Toy.md5 Toy.hex Toy.base64 Toy.sanitizeETag Toy.getVersionId
                Toy.failing "b" "o" 2 ∅ 2 [Toy.xy; Toy.zw; Toy.x])
      as (Hone & _ & _).
    + lia.
    + intros chunk rest [= <- <-]. vm_compute. discriminate.
    + exact Hone.
  - destruct (one_outcome_per_upload
                Toy.md5 Toy.hex Toy.base64 Toy.sanitizeETag Toy.getVersionId
                Toy.fresh "b" "o" 2 ∅ 2 [Toy.xy; Toy.x])
      as (_ & Hclean & _).
    + lia.
    + intros chunk rest [= <- <-]. vm_compute. discriminate.
    + apply Hclean. unfold clean. vm_compute. repeat constructor.
Defined.

(** X5, on a run of one short chunk: the callback of the stream is not
    called at its end. *)
Lemma flush_callback_witness :
  fst (pipe Toy.md5 Toy.hex Toy.base64 Toy.sanitizeETag Toy.getVersionId
            Toy.fresh "b" "o" 2 ∅ 2 [Toy.x] constructor) = Pending.
Proof.
  destruct (flush_callback_after_single_put
              Toy.md5 Toy.hex Toy.base64 Toy.sanitizeETag Toy.getVersionId
              Toy.fresh "b" "o" 2 ∅ 2 [Toy.x])
    as (_ & Hpending).
  - lia.
  - unfold clean. vm_compute. repeat constructor.
  - apply Hpending; [discriminate|]. vm_compute. reflexivity.
Defined.

(** X7, on the run that resumes: the etag of part 1 is the recorded one,
    the etag of part 2 is the one of the response. *)
Lemma completed_etags_witness :
  Forall (origin (λ c, Toy.hex (Toy.md5 c))
                 (trace (Toy.upload Toy.resuming 2 2 [Toy.xy; Toy.zw]))
                 (oldParts (this (Toy.upload Toy.resuming 2 2 [Toy.xy; Toy.zw])))
                 (parts_of 2 [Toy.xy; Toy.zw]))
         [ {| part := 1; etag := Some "xy" |};
           {| part := 2; etag := Some "e" |} ].
Proof.
  apply (completed_etags_origin
           Toy.md5 Toy.hex Toy.base64 Toy.sanitizeETag Toy.getVersionId
           Toy.resuming "b" "o" 2 ∅ 2 [Toy.xy; Toy.zw] "b" "o" "id0"
           [ {| part := 1; etag := Some "xy" |};
             {| part := 2; etag := Some "e" |} ]
           (inr "done")).
  vm_compute. repeat (first [left; reflexivity | right]).
Defined.

(** X8, on a run that resumes an upload whose two parts are there. *)
Lemma resumed_upload_witness :
  count is_uploadPart
        (trace (Toy.upload Toy.resuming_all 2 2 [Toy.xy; Toy.zw])) = 0.
Proof.
  apply (resumed_upload_sends_no_part
           Toy.md5 Toy.hex Toy.base64 Toy.sanitizeETag Toy.getVersionId
           Toy.resuming_all "b" "o" 2 ∅ 2 [Toy.xy; Toy.zw]
           (build_oldParts (Some Toy.whole_listing))).
  - vm_compute. reflexivity.
  - intros k chunk Hk. destruct k as [|[|k]]; cbn in Hk.
    + injection Hk as <-. exists {| part := 1; etag := Some "xy" |}.
      split; vm_compute; reflexivity.
    + injection Hk as <-. exists {| part := 2; etag := Some "zw" |}.
      split; vm_compute; reflexivity.
    + discriminate Hk.
Defined.

(** X9, on a run of three chunks in a new session. *)
Lemma new_session_witness :
  count (is_uploadPart_of 2)
        (trace (Toy.upload Toy.fresh 2 2 [Toy.xy; Toy.zw; Toy.x])) = 1.
Proof.
  apply (new_session_requests_every_part
           Toy.md5 Toy.hex Toy.base64 Toy.sanitizeETag Toy.getVersionId
           Toy.fresh "b" "o" 2 ∅ 2 [Toy.xy; Toy.zw; Toy.x] "b" "o" "id1"
           [ {| part := 1; etag := Some "e" |};
             {| part := 2; etag := Some "e" |};
             {| part := 3; etag := Some "e" |} ]
           (inr "done") 2).
  - vm_compute. repeat (first [left; reflexivity | right]).
  - vm_compute. reflexivity.
  - vm_compute. lia.
Defined.

(** * The small client *)

(** X13, on a client with a part size of 16 MiB and on one with none. *)
Lemma client_part_size_witness :
  (5 * 1024 * 1024
   ≤ TypedClient.partSize (ToyClient.client_of ToyClient.amazon)
   ≤ 5 * 1024 * 1024 * 1024)%Z
  ∧ TypedClient.partSize (ToyClient.client_of ToyClient.params)
    = (64 * 1024 * 1024)%Z.
Proof.
  split.
  - apply (client_part_size_within_bounds
             "http" "https" "http.globalAgent" "https.globalAgent" "linux" "x64"
             (λ _ _, "[object Object]") ToyClient.toLowerCase
             ToyClient.isValidEndpoint ToyClient.isValidPort ToyClient.isObject
             ToyClient.amazon (ToyClient.client_of ToyClient.amazon)).
    vm_compute. reflexivity.
  - destruct (client_part_size_within_bounds
                "http" "https" "http.globalAgent" "https.globalAgent" "linux" "x64"
                (λ _ _, "[object Object]") ToyClient.toLowerCase
                ToyClient.isValidEndpoint ToyClient.isValidPort ToyClient.isObject
                ToyClient.params (ToyClient.client_of ToyClient.params))
      as (_ & Hsize & _).
    + vm_compute. reflexivity.
    + exact Hsize.
Defined.

(** X14, on a client for which [useSSL] was not given. *)
Lemma client_sha256_witness :
  TypedClient.protocol (ToyClient.client_of ToyClient.params) = "https:".
Proof.
  destruct (client_sha256_only_over_http
              "http" "https" "http.globalAgent" "https.globalAgent" "linux" "x64"
              (λ _ _, "[object Object]") ToyClient.toLowerCase
              ToyClient.isValidEndpoint ToyClient.isValidPort ToyClient.isObject
              ToyClient.params (ToyClient.client_of ToyClient.params))
    as (_ & _ & Hhttps & _).
  - vm_compute. reflexivity.
  - apply Hhttps. discriminate.
Defined.

(** X15, on a client with the port 9000 and on one with none. *)
Lemma client_port_witness :
  TypedClient.port (ToyClient.client_of ToyClient.params) = 9000%Z
  ∧ TypedClient.port (ToyClient.client_of ToyClient.amazon) = 443%Z.
Proof.
  split.
  - destruct (client_port_defaults
                "http" "https" "http.globalAgent" "https.globalAgent" "linux" "x64"
                (λ _ _, "[object Object]") ToyClient.toLowerCase
                ToyClient.isValidEndpoint ToyClient.isValidPort ToyClient.isObject
                ToyClient.params (ToyClient.client_of ToyClient.params))
      as (_ & Hgiven & _).
    + vm_compute. reflexivity.
    + apply Hgiven; [reflexivity|discriminate].
  - destruct (client_port_defaults
                "http" "https" "http.globalAgent" "https.globalAgent" "linux" "x64"
                (λ _ _, "[object Object]") ToyClient.toLowerCase
                ToyClient.isValidEndpoint ToyClient.isValidPort ToyClient.isObject
                ToyClient.amazon (ToyClient.client_of ToyClient.amazon))
      as (_ & _ & Hdefault).
    + vm_compute. reflexivity.
    + apply Hdefault. left. reflexivity.
Defined.

(** X16, on a client on which an agent, a certificate authority and an
    unknown option were set. *)
Lemma request_agent_witness :
  ToyClient.request_of
    (ToyClient.with_options (ToyClient.client_of ToyClient.params)
                            ToyClient.options)
    ToyClient.opts
  !! "agent" = Some (TypedClient.VAgent "https.globalAgent")
  ∧ ToyClient.request_of
      (ToyClient.with_options (ToyClient.client_of ToyClient.params)
                              ToyClient.options)
      ToyClient.opts
    !! "timeout" = None.
Proof.
  destruct (request_agent_is_the_transport_agent
              ToyClient.toLowerCase ToyClient.isObject ToyClient.isEmpty
              ToyClient.isDefined ToyClient.isVirtualHostStyle
              ToyClient.uriResourceEscape ToyClient.isAmazonEndpoint
              ToyClient.getS3Endpoint
              (ToyClient.client_of ToyClient.params)
              (ToyClient.with_options (ToyClient.client_of ToyClient.params)
                                      ToyClient.options)
              ToyClient.options ToyClient.opts
              (ToyClient.request_of
                 (ToyClient.with_options (ToyClient.client_of ToyClient.params)
                                         ToyClient.options)
                 ToyClient.opts))
    as (Hagent & _ & Hother & _).
  - vm_compute. reflexivity.
  - vm_compute. reflexivity.
  - split; [exact Hagent|]. apply Hother.
    + vm_compute. intros Hin.
      repeat (apply elem_of_cons in Hin as [Hin|Hin]; [discriminate Hin|]).
      destruct (not_elem_of_nil _ Hin).
    + intros Hin.
      repeat (apply elem_of_cons in Hin as [Hin|Hin]; [discriminate Hin|]).
      destruct (not_elem_of_nil _ Hin).
Defined.

(** X17, on a request with two headers whose names differ in case. *)
Lemma request_header_witness :
  ∃ h, ToyClient.request_of (ToyClient.client_of ToyClient.params) ToyClient.opts
       !! "headers" = Some (TypedClient.VHeaders h)
       ∧ h !! "x-amz-meta-a" = Some "last".
Proof.
  destruct (request_header_names_lower_case
              ToyClient.toLowerCase ToyClient.isEmpty
              ToyClient.isDefined ToyClient.isVirtualHostStyle
              ToyClient.uriResourceEscape ToyClient.isAmazonEndpoint
              ToyClient.getS3Endpoint
              (ToyClient.client_of ToyClient.params) ToyClient.opts
              (ToyClient.request_of (ToyClient.client_of ToyClient.params)
                                    ToyClient.opts))
    as (h & Hh & _ & Hlast).
  - vm_compute. reflexivity.
  - exists h. split; [exact Hh|].
    apply (Hlast [("Content-Length", HNum 2); ("X-Amz-Meta-A", HStr "first")]
                 "x-amz-meta-a" (HStr "last") []).
    + reflexivity.
    + intros kv Hin. destruct (not_elem_of_nil _ Hin).
Defined.

(** X18, on the client with the port 9000. *)
Lemma host_header_witness :
  ∃ hst h,
    ToyClient.request_of (ToyClient.client_of ToyClient.params) ToyClient.opts
    !! "host" = Some (TypedClient.VString hst)
    ∧ ToyClient.request_of (ToyClient.client_of ToyClient.params) ToyClient.opts
      !! "headers" = Some (TypedClient.VHeaders h)
    ∧ h !! "host" = Some (hst +:+ ":9000").
Proof.
  destruct (host_header_has_the_port_unless_default
              "http" "https" "http.globalAgent" "https.globalAgent" "linux" "x64"
              (λ _ _, "[object Object]") ToyClient.toLowerCase
              ToyClient.isValidEndpoint ToyClient.isValidPort ToyClient.isObject
              ToyClient.isEmpty ToyClient.isDefined ToyClient.isVirtualHostStyle
              ToyClient.uriResourceEscape ToyClient.isAmazonEndpoint
              ToyClient.getS3Endpoint
              ToyClient.params (ToyClient.client_of ToyClient.params)
              ToyClient.opts
              (ToyClient.request_of (ToyClient.client_of ToyClient.params)
                                    ToyClient.opts))
    as (hst & h & Hhost & _ & Hheaders & Hheader).
  - vm_compute. reflexivity.
  - vm_compute. reflexivity.
  - intros hs kv [= <-] Hin.
    repeat (apply elem_of_cons in Hin as [->|Hin]; [vm_compute; discriminate|]).
    destruct (not_elem_of_nil _ Hin).
  - exists hst, h. split; [exact Hhost|]. split; [exact Hheaders|].
    exact Hheader.
Defined.


(** X20, on the uploader of the client for which [useSSL] was not
    given. *)
Lemma https_client_witness :
  Forall (content_md5 Toy.md5 Toy.base64)
         (trace (snd (Toy.write Toy.fresh 2 2 [Toy.xy; Toy.x] constructor))).
Proof.
  apply (https_client_uploads_with_content_md5
           "http" "https" "http.globalAgent" "https.globalAgent" "linux" "x64"
           (λ _ _, "[object Object]") ToyClient.toLowerCase
           ToyClient.isValidEndpoint ToyClient.isValidPort ToyClient.isObject
           ToyClient.params (ToyClient.client_of ToyClient.params)).
  - vm_compute. reflexivity.
  - discriminate.
  - vm_compute. reflexivity.
Defined.
